(** * GPS tracking: telemetry calculator and WebSocket room service

    A shallow embedding of

    - [src/lib/location.ts]: [calculateDistance], [calculateBearing],
      [getCompassDirection], [calculateSpeed], [determineMotionState],
      [calculateLocationData];
    - [src/app/api/locations/route.ts]: the speed/heading/motion derivation
      of [POST] (lines 69-94);
    - [mini-services/gps-ws-service/index.ts]: the socket handlers
      [authenticate], [device:register], [location:update],
      [device:unregister] and [disconnect] over the two module-level maps
      [connectedDevices] and [socketToUser] and the Socket.io rooms.

    JavaScript numbers are modelled as real numbers ([R]); the special
    value NaN and the two infinities are modelled only where the code tests
    for them ([determineMotionState]).  [Math.sin], [Math.cos], [Math.sqrt]
    are the functions of the same name on [R]; [Math.atan2], [Math.round] and
    the remainder operator [%] are defined below from their ECMAScript
    descriptions.

    Part I is therefore the calculator in exact arithmetic.  The code
    computes on binary64 doubles, and its results are those of Part I up to
    rounding, with three exceptions where rounding changes the kind of the
    result: the haversine term of [calculateDistance] can round above 1, and
    the distance is then NaN; [calculateBearing] between two latitudes whose
    radians round to one double sees no difference of latitude; and
    [calculateCenterPoint] can return the longitude -180 where exact
    arithmetic has 180.  Two further modules follow the code there:
    [Binary64] has [calculateDistance] on doubles, with the operations of
    IEEE 754 arithmetic, and [CalculatorNaN] has [calculateSpeed] and
    [calculateLocationData] on numbers that may be NaN. *)

From Stdlib Require Import Reals Lra Lia ZArith List.
From Stdlib Require PrimFloat.
From stdpp Require Import gmap strings.

(* ===================================================================== *)
(** * Part I: the calculator, [src/lib/location.ts] *)
(* ===================================================================== *)

Module Calculator.

Local Open Scope R_scope.

(** ** JavaScript built-ins used by the calculator *)

(** [Math.round x]: the integer nearest to [x], ties towards +infinity;
    [Int_part] is the floor. *)
Definition round_to_Z (x : R) : Z := Int_part (x + / 2).
Definition Math_round (x : R) : R := IZR (round_to_Z x).

(** Truncation towards zero, as used by the [%] operator. *)
Definition Rtrunc (x : R) : Z :=
  if Rle_dec 0 x then Int_part x else (- Int_part (- x))%Z.

(** [x % y] on numbers: the result has the sign of the dividend. *)
Definition js_rem (x y : R) : R := x - y * IZR (Rtrunc (x / y)).

(** [Math.atan2 y x]: the angle of the point [(x, y)], in (-PI, PI]. *)
Definition Math_atan2 (y x : R) : R :=
  if Rlt_dec 0 x then atan (y / x)
  else if Rlt_dec x 0 then
    if Rle_dec 0 y then atan (y / x) + PI else atan (y / x) - PI
  else if Rlt_dec 0 y then PI / 2
  else if Rlt_dec y 0 then - (PI / 2)
  else 0.

(** A JavaScript number as seen by a test for NaN and a comparison. *)
Inductive number : Type :=
  | NaN : number
  | Infinity (negative : bool) : number
  | Num (r : R) : number.

(** [n < bound] for a finite [bound]; any comparison with NaN is false. *)
Definition number_lt (n : number) (bound : R) : bool :=
  match n with
  | NaN => false
  | Infinity negative => negative
  | Num r => if Rlt_dec r bound then true else false
  end.

Definition isNaN (n : number) : bool :=
  match n with NaN => true | _ => false end.

(** ** Constants *)

Definition EARTH_RADIUS_KM : R := 6371.
Definition EARTH_RADIUS_MILES : R := 3959.

(** ** [toRadians], [toDegrees] *)

Definition toRadians (degrees : R) : R := degrees * (PI / 180).
Definition toDegrees (radians : R) : R := radians * (180 / PI).

(** ** [calculateDistance] *)

(** The local [a] of [calculateDistance].  In exact arithmetic it lies in
    [0, 1] for all arguments; on doubles it can round to a value just above 1
    ([Binary64.haversine_a]), and [Math.sqrt(1 - a)] is then NaN. *)
Definition haversine_a (lat1 lon1 lat2 lon2 : R) : R :=
  let dLat := toRadians (lat2 - lat1) in
  let dLon := toRadians (lon2 - lon1) in
  sin (dLat / 2) * sin (dLat / 2) +
  cos (toRadians lat1) * cos (toRadians lat2) *
  sin (dLon / 2) * sin (dLon / 2).

Definition calculateDistance (lat1 lon1 lat2 lon2 : R) : R :=
  let a := haversine_a lat1 lon1 lat2 lon2 in
  let c := 2 * Math_atan2 (sqrt a) (sqrt (1 - a)) in
  EARTH_RADIUS_KM * c.

(** ** [calculateBearing]

    In exact arithmetic: the code sees two latitudes as equal when their
    radians round to the same double. *)

Definition calculateBearing (lat1 lon1 lat2 lon2 : R) : R :=
  let dLon := toRadians (lon2 - lon1) in
  let y := sin dLon * cos (toRadians lat2) in
  let x := cos (toRadians lat1) * sin (toRadians lat2) -
           sin (toRadians lat1) * cos (toRadians lat2) * cos dLon in
  let bearing := toDegrees (Math_atan2 y x) in
  js_rem (bearing + 360) 360.

(** ** [getCompassDirection] *)

Definition directions : list string :=
  ["N"; "NE"; "E"; "SE"; "S"; "SW"; "W"; "NW"]%string.

(** [directions[index]]; [None] is JavaScript's [undefined] (a negative
    index). *)
Definition getCompassDirection (bearing : R) : option string :=
  let index := Z.rem (round_to_Z (bearing / 45)) 8 in
  if (index <? 0)%Z then None else nth_error directions (Z.to_nat index).

(** ** [calculateSpeed] *)

Record Speed : Type := mkSpeed { kmh : R; mph : R }.

Definition calculateSpeed (distanceKm timeMs : R) : Speed :=
  if Req_dec_T timeMs 0 then {| kmh := 0; mph := 0 |}
  else
    let hours := timeMs / (1000 * 60 * 60) in
    let speedKmh := distanceKm / hours in
    let speedMph := speedKmh * 0.621371 in
    {| kmh := Math_round (speedKmh * 10) / 10;
       mph := Math_round (speedMph * 10) / 10 |}.

(** ** [determineMotionState] *)

(** The argument is [None] for [null] and [undefined]. *)
Definition determineMotionState (speedKmh : option number) : string :=
  match speedKmh with
  | None => "UNKNOWN"
  | Some s =>
      if isNaN s then "UNKNOWN"
      else if number_lt s 2 then "STATIONARY"
      else if number_lt s 10 then "WALKING"
      else "DRIVING"
  end.

(** ** [calculateLocationData] *)

Record LocationCalculations : Type := mkLocationCalculations {
  distanceKm : R;
  distanceMiles : R;
  speed : Speed;
  bearing : R;
  compassDirection : option string;
  motionState : string
}.

(** The local [speed] of [calculateLocationData]: zero unless
    [timeElapsed && timeElapsed > 0]. *)
Definition elapsed_speed (distance : R) (timeElapsed : option R) : Speed :=
  match timeElapsed with
  | Some t => if Rlt_dec 0 t then calculateSpeed distance t
              else {| kmh := 0; mph := 0 |}
  | None => {| kmh := 0; mph := 0 |}
  end.

(** In exact arithmetic, where [calculateDistance] always returns a number;
    [CalculatorNaN.calculateLocationData] is the same function with a
    distance that may be NaN. *)
Definition calculateLocationData
    (prevLat prevLon : option R) (newLat newLon : R)
    (timeElapsed : option R) : LocationCalculations :=
  match prevLat, prevLon with
  | Some prevLat, Some prevLon =>
      let distanceKm := calculateDistance prevLat prevLon newLat newLon in
      let distanceMiles := distanceKm * 0.621371 in
      let speed := elapsed_speed distanceKm timeElapsed in
      let bearing := calculateBearing prevLat prevLon newLat newLon in
      let compassDirection := getCompassDirection bearing in
      let motionState := determineMotionState (Some (Num (kmh speed))) in
      {| distanceKm := Math_round (distanceKm * 100) / 100;
         distanceMiles := Math_round (distanceMiles * 100) / 100;
         speed := speed;
         bearing := bearing;
         compassDirection := compassDirection;
         motionState := motionState |}
  | _, _ =>
      {| distanceKm := 0;
         distanceMiles := 0;
         speed := {| kmh := 0; mph := 0 |};
         bearing := 0;
         compassDirection := Some "N"%string;
         motionState := "UNKNOWN" |}
  end.

(** ** [isValidCoordinates] *)

Definition isValidCoordinates (latitude longitude : R) : Prop :=
  -90 <= latitude /\ latitude <= 90 /\ -180 <= longitude /\ longitude <= 180.

(** ** [isValidCoordinates], as a function

    The argument is [None] for [null] and [undefined]. *)

Definition Rleb (a b : R) : bool := if Rle_dec a b then true else false.

Definition isValidCoordinates_check (latitude longitude : option R) : bool :=
  match latitude, longitude with
  | Some latitude, Some longitude =>
      Rleb (-90) latitude && Rleb latitude 90 &&
      Rleb (-180) longitude && Rleb longitude 180
  | _, _ => false
  end.

(** ** [calculateCenterPoint]

    In exact arithmetic, where [Math.atan2] is PI at a point of the negative
    x axis; on doubles [Math.sin] of the double nearest to -PI is a small
    negative number, and the code returns the longitude -180 for
    coordinates at longitude -180. *)

Record Coordinate : Type := mkCoordinate { lat : R; lon : R }.

(** One round of the loop over the coordinates: the running sums
    [(x, y, z)]. *)
Definition add_unit_vector (acc : R * R * R) (coord : Coordinate) : R * R * R :=
  let '(x, y, z) := acc in
  let lat := toRadians (lat coord) in
  let lon := toRadians (lon coord) in
  (x + cos lat * cos lon, y + cos lat * sin lon, z + sin lat).

Definition calculateCenterPoint (coordinates : list Coordinate) : Coordinate :=
  match coordinates with
  | [] => {| lat := 0; lon := 0 |}
  | [c] => {| lat := lat c; lon := lon c |}
  | _ =>
      let '(x, y, z) := fold_left add_unit_vector coordinates (0, 0, 0) in
      let n := INR (length coordinates) in
      let x := x / n in
      let y := y / n in
      let z := z / n in
      let lon := Math_atan2 y x in
      let hyp := sqrt (x * x + y * y) in
      let lat := Math_atan2 z hyp in
      {| lat := toDegrees lat; lon := toDegrees lon |}
  end.

(** ** [calculateBoundingBox] *)

(** [Math.min(...xs)] and [Math.max(...xs)] for an array with first element
    [x] and further elements [xs]. *)
Definition Math_min (x : R) (xs : list R) : R := fold_left Rmin xs x.
Definition Math_max (x : R) (xs : list R) : R := fold_left Rmax xs x.

Record BoundingBox : Type := mkBoundingBox {
  minLat : R;
  maxLat : R;
  minLon : R;
  maxLon : R
}.

Definition calculateBoundingBox (coordinates : list Coordinate) : BoundingBox :=
  match coordinates with
  | [] => {| minLat := 0; maxLat := 0; minLon := 0; maxLon := 0 |}
  | c :: cs =>
      let lats := map lat cs in
      let lons := map lon cs in
      {| minLat := Math_min (lat c) lats;
         maxLat := Math_max (lat c) lats;
         minLon := Math_min (lon c) lons;
         maxLon := Math_max (lon c) lons |}
  end.

(** ** [padBoundingBox]

    [paddingFactor] is [None] when the argument is left out. *)
Definition padBoundingBox (bounds : BoundingBox) (paddingFactor : option R)
  : BoundingBox :=
  let paddingFactor := match paddingFactor with Some f => f | None => 0.1 end in
  let latPadding := (maxLat bounds - minLat bounds) * paddingFactor in
  let lonPadding := (maxLon bounds - minLon bounds) * paddingFactor in
  {| minLat := minLat bounds - latPadding;
     maxLat := maxLat bounds + latPadding;
     minLon := minLon bounds - lonPadding;
     maxLon := maxLon bounds + lonPadding |}.

(** Whether a coordinate lies in a box, borders included. *)
Definition inside (c : Coordinate) (b : BoundingBox) : Prop :=
  minLat b <= lat c <= maxLat b /\ minLon b <= lon c <= maxLon b.

End Calculator.

(* ===================================================================== *)
(** * Part II: the derivation of [POST /api/locations], [route.ts] *)
(* ===================================================================== *)

Module LocationsRoute.

Import Calculator.
Local Open Scope R_scope.

(** The two fields of the latest stored location row that the handler
    reads; its timestamp only enters through [timeElapsed]. *)
Record PrevLocation : Type := mkPrevLocation {
  prev_latitude : R;
  prev_longitude : R
}.

(** Truthiness of a (finite) number: every number but zero. *)
Definition truthy (x : R) : bool := if Req_dec_T x 0 then false else true.

(** [x || 0] for an optional number. *)
Definition or_zero (x : option R) : R :=
  match x with Some v => v | None => 0 end.

(** What lines 69-94 compute and what the rows written afterwards store. *)
Record Derived : Type := mkDerived {
  calculatedSpeedKmh : option R;
  calculatedHeading : option R;
  derivedMotionState : string;
  speedMph : option R;          (* [None] is [null] *)
  storedSpeedKmh : R            (* [calculatedSpeedKmh || 0] *)
}.

(** [speedKmh] and [heading] are the optional fields of the request body,
    [prevLocation] the result of [findFirst], [timeElapsed] the difference
    of the two timestamps in milliseconds.  Lines 70-91: the final values of
    [calculatedSpeedKmh], [calculatedHeading] and [motionState]. *)
Definition POST_calculated
    (speedKmh heading : option R) (prevLocation : option PrevLocation)
    (latitude longitude : R) (timeElapsed : R)
  : option R * option R * string :=
  let initial :=
    (speedKmh, heading,
     determineMotionState (Some (Num (or_zero speedKmh)))) in
  match prevLocation with
  | Some p =>
      if truthy (prev_latitude p) && truthy (prev_longitude p) then
        if Rlt_dec 0 timeElapsed then
          let calculations :=
            calculateLocationData
              (Some (prev_latitude p)) (Some (prev_longitude p))
              latitude longitude (Some timeElapsed) in
          (Some (kmh (speed calculations)),
           Some (bearing calculations),
           Calculator.motionState calculations)
        else initial
      else initial
  | None => initial
  end.

(** Lines 70-94 and the values written to the rows. *)
Definition POST_derive
    (speedKmh heading : option R) (prevLocation : option PrevLocation)
    (latitude longitude : R) (timeElapsed : R) : Derived :=
  let '(calculatedSpeedKmh, calculatedHeading, motionState) :=
    POST_calculated speedKmh heading prevLocation latitude longitude
      timeElapsed in
  {| calculatedSpeedKmh := calculatedSpeedKmh;
     calculatedHeading := calculatedHeading;
     derivedMotionState := motionState;
     speedMph :=
       match calculatedSpeedKmh with
       | Some v => if truthy v then Some (v * 0.621371) else None
       | None => None
       end;
     storedSpeedKmh := or_zero calculatedSpeedKmh |}.

End LocationsRoute.

(* ===================================================================== *)
(** * Part III: the WebSocket service, [gps-ws-service/index.ts] *)
(* ===================================================================== *)

Module Service.

Local Open Scope string_scope.

(** The value stored in [socketToUser]. *)
Record User : Type := mkUser { userId : string; email : string }.

(** The [location] object of a [location:update] message. *)
Record Location : Type := mkLocation {
  latitude : R;
  longitude : R;
  speedKmh : option R;
  heading : option R;
  motionState : option string;
  timestamp : option string
}.

(** What the server sends to one socket. *)
Inductive Message : Type :=
  | ErrorEvent (message : string)
      (* emit('error', { message }) *)
  | AuthenticatedEvent (user : User)
      (* emit('authenticated', { user }) *)
  | LocationUpdateEvent (deviceId : string) (location : Location)
      (updatedAt : string)
      (* emit('location:update', { deviceId, location, updatedAt }) *)
  | CallbackSuccess (user : option User)
      (* callback?.({ success: true, user? }) *)
  | CallbackFailure (error : string).
      (* callback?.({ success: false, error }) *)

(** A send: the receiving socket and the message. *)
Definition Delivery : Type := string * Message.

(** ** Maps from a key to a set of socket ids

    [connectedDevices] is such a map, mutated by the handlers; the room
    table of the Socket.io adapter is another. *)

Definition members (key : string) (m : gmap string (gset string)) : gset string :=
  default ∅ (m !! key).

(** [if (!m.has(key)) m.set(key, new Set()); m.get(key).add(id)] *)
Definition add_member (key id : string) (m : gmap string (gset string))
  : gmap string (gset string) :=
  <[key := {[id]} ∪ members key m]> m.

(** The body run on one set: [s.delete(id)], then the entry is dropped when
    [s.size === 0]. *)
Definition without (id : string) (s : gset string) : option (gset string) :=
  let s' := s ∖ {[id]} in
  if decide (size s' = 0) then None else Some s'.

(** [const s = m.get(key); if (s) { s.delete(id); if (s.size === 0)
    m.delete(key) }] *)
Definition remove_member (key id : string) (m : gmap string (gset string))
  : gmap string (gset string) :=
  match m !! key with
  | None => m
  | Some s =>
      match without id s with
      | None => delete key m
      | Some s' => <[key := s']> m
      end
  end.

(** [for (const [key, s] of m.entries()) { s.delete(id); if (s.size === 0)
    m.delete(key) }] *)
Definition remove_everywhere (id : string) (m : gmap string (gset string))
  : gmap string (gset string) :=
  omap (without id) m.

(** ** Server state *)

Record State : Type := mkState {
  (* the two module-level maps of index.ts *)
  connectedDevices : gmap string (gset string);
  socketToUser : gmap string User;
  (* Socket.io: room name -> sockets in the room *)
  rooms : gmap string (gset string);
  (* Socket.io: sockets that are connected, and ids of sockets that have
     disconnected *)
  connected : gset string;
  closed : gset string
}.

Definition initial : State :=
  {| connectedDevices := ∅; socketToUser := ∅; rooms := ∅;
     connected := ∅; closed := ∅ |}.

Definition user_room (userId : string) : string := "user:" +:+ userId.
Definition device_room (deviceId : string) : string := "device:" +:+ deviceId.

(** [io.to(room).emit(message)]: one send per socket in the room. *)
Definition io_to_emit (room : string) (message : Message) (st : State)
  : list Delivery :=
  (λ id, (id, message)) <$> elements (members room (rooms st)).

Section Handlers.

(** [verifyToken]: the payload of a token that verifies, [None] otherwise. *)
Variable verifyToken : string → option User.

(** [io.on('connection')]: the handler only logs and installs the
    listeners; Socket.io puts the socket in the room named by its id. *)
Definition on_connection (id : string) (st : State) : State * list Delivery :=
  ({| connectedDevices := connectedDevices st;
      socketToUser := socketToUser st;
      rooms := add_member id id (rooms st);
      connected := {[id]} ∪ connected st;
      closed := closed st |}, []).

(** [socket.on('disconnect')]; Socket.io has by then taken the socket out
    of every room. *)
Definition on_disconnect (id : string) (st : State) : State * list Delivery :=
  ({| connectedDevices := remove_everywhere id (connectedDevices st);
      socketToUser := delete id (socketToUser st);
      rooms := remove_everywhere id (rooms st);
      connected := connected st ∖ {[id]};
      closed := {[id]} ∪ closed st |}, []).

(** [socket.on('authenticate')] *)
Definition on_authenticate (id token : string) (st : State)
  : State * list Delivery :=
  match verifyToken token with
  | None =>
      (* emit the error, then socket.disconnect() runs the disconnect
         handler *)
      let '(st', out) := on_disconnect id st in
      (st', (id, ErrorEvent "Authentication failed") :: out)
  | Some user =>
      ({| connectedDevices := connectedDevices st;
          socketToUser := <[id := user]> (socketToUser st);
          rooms := add_member (user_room (userId user)) id (rooms st);
          connected := connected st;
          closed := closed st |},
       [(id, CallbackSuccess (Some user)); (id, AuthenticatedEvent user)])
  end.

(** [socket.on('device:register')] *)
Definition on_device_register (id deviceId : string) (st : State)
  : State * list Delivery :=
  match socketToUser st !! id with
  | None => (st, [(id, CallbackFailure "Not authenticated")])
  | Some user =>
      ({| connectedDevices := add_member deviceId id (connectedDevices st);
          socketToUser := socketToUser st;
          rooms := add_member (device_room deviceId) id (rooms st);
          connected := connected st;
          closed := closed st |},
       [(id, CallbackSuccess None)])
  end.

(** [location.timestamp || new Date().toISOString()]: the empty string is
    falsy. *)
Definition timestamp_or (timestamp : option string) (now : string) : string :=
  match timestamp with
  | Some t => if decide (t = "") then now else t
  | None => now
  end.

(** The location object that is broadcast: the sender's object with its
    timestamp defaulted. *)
Definition relayed (location : Location) (now : string) : Location :=
  {| latitude := latitude location;
     longitude := longitude location;
     speedKmh := speedKmh location;
     heading := heading location;
     motionState := motionState location;
     timestamp := Some (timestamp_or (timestamp location) now) |}.

(** [socket.on('location:update')]; [now] and [now'] are the results of the
    two [new Date().toISOString()] calls. *)
Definition on_location_update
    (id deviceId : string) (location : Location) (now now' : string)
    (st : State) : State * list Delivery :=
  match socketToUser st !! id with
  | None => (st, [(id, ErrorEvent "Not authenticated")])
  | Some user =>
      (st, io_to_emit (device_room deviceId)
             (LocationUpdateEvent deviceId (relayed location now) now') st)
  end.

(** [socket.on('device:unregister')] *)
Definition on_device_unregister (id deviceId : string) (st : State)
  : State * list Delivery :=
  match socketToUser st !! id with
  | None => (st, [(id, CallbackFailure "Not authenticated")])
  | Some user =>
      ({| connectedDevices := remove_member deviceId id (connectedDevices st);
          socketToUser := socketToUser st;
          rooms := remove_member (device_room deviceId) id (rooms st);
          connected := connected st;
          closed := closed st |},
       [(id, CallbackSuccess None)])
  end.

(** ** The event loop *)

(** What the transport hands to the server, one event at a time. *)
Inductive Event : Type :=
  | Connection (id : string)
  | Authenticate (id token : string)
  | DeviceRegister (id deviceId : string)
  | LocationUpdate (id deviceId : string) (location : Location)
      (now now' : string)
  | DeviceUnregister (id deviceId : string)
  | Disconnect (id : string).

Definition socket_of (ev : Event) : string :=
  match ev with
  | Connection id | Authenticate id _ | DeviceRegister id _
  | LocationUpdate id _ _ _ _ | DeviceUnregister id _ | Disconnect id => id
  end.

(** Socket.io gives every connection an id of its own and calls no
    listener of a socket that is not connected: such events are dropped. *)
Definition step (ev : Event) (st : State) : State * list Delivery :=
  match ev with
  | Connection id =>
      if decide (id ∈ connected st ∪ closed st) then (st, [])
      else on_connection id st
  | _ =>
      if decide (socket_of ev ∈ connected st) then
        match ev with
        | Connection id => (st, [])
        | Authenticate id token => on_authenticate id token st
        | DeviceRegister id deviceId => on_device_register id deviceId st
        | LocationUpdate id deviceId location now now' =>
            on_location_update id deviceId location now now' st
        | DeviceUnregister id deviceId => on_device_unregister id deviceId st
        | Disconnect id => on_disconnect id st
        end
      else (st, [])
  end.

(** The state after a list of events, with everything sent on the way. *)
Fixpoint run (evs : list Event) (st : State) : State * list Delivery :=
  match evs with
  | [] => (st, [])
  | ev :: evs' =>
      let '(st1, out1) := step ev st in
      let '(st2, out2) := run evs' st1 in
      (st2, (out1 ++ out2)%list)
  end.

End Handlers.

(** [membersOf(deviceId)] of the registry. *)
Definition membersOf (deviceId : string) (st : State) : gset string :=
  members deviceId (connectedDevices st).

(** The sockets a list of sends goes to. *)
Definition recipients (out : list Delivery) : list string := fst <$> out.

(** A verifier for the examples: two tokens verify, nothing else does. *)
Definition alice : User := {| userId := "u1"; email := "alice@example.com" |}.
Definition bob : User := {| userId := "u2"; email := "bob@example.com" |}.

Definition sample_verifyToken (token : string) : option User :=
  if decide (token = "token-alice") then Some alice
  else if decide (token = "token-bob") then Some bob
  else None.

(** ** Properties of a state *)

(** Every entry of [connectedDevices] is a non-empty set of connected
    sockets, and no socket is both connected and closed. *)
Definition registry_inv (st : State) : Prop :=
  (∀ d s, connectedDevices st !! d = Some s → s ≠ ∅ ∧ s ⊆ connected st) ∧
  connected st ## closed st.

(** No member set holds the id of a socket that has disconnected. *)
Definition no_closed_member (st : State) : Prop :=
  ∀ d id, id ∈ membersOf d st → id ∉ closed st.

(** No device is registered with an empty member set. *)
Definition no_empty_topic (st : State) : Prop :=
  ∀ d s, connectedDevices st !! d = Some s → s ≠ ∅.

(** The room of every device holds the sockets registered for it. *)
Definition rooms_sync (st : State) : Prop :=
  ∀ d, rooms st !! device_room d = connectedDevices st !! d.

(** A socket id that is not the name of a device room. *)
Definition plain_id (id : string) : Prop := ∀ d, id ≠ device_room d.

(** Every member of a device's set has an identity, and every socket with
    an identity is connected. *)
Definition members_authenticated (st : State) : Prop :=
  (∀ d id, id ∈ membersOf d st → is_Some (socketToUser st !! id)) ∧
  (∀ id, is_Some (socketToUser st !! id) → id ∈ connected st).

(** Whether a message is a [location:update] broadcast. *)
Definition is_location_update (m : Message) : Prop :=
  match m with LocationUpdateEvent _ _ _ => True | _ => False end.

(** ** The example run: A and B watch d1, C watches d2 *)

Definition fan_out_setup : list Event :=
  [Connection "A"; Connection "B"; Connection "C";
   Authenticate "A" "token-alice"; Authenticate "B" "token-bob";
   Authenticate "C" "token-alice";
   DeviceRegister "A" "d1"; DeviceRegister "B" "d1"; DeviceRegister "C" "d2"].

Definition fan_out_state : State :=
  (run sample_verifyToken fan_out_setup initial).1.

End Service.

(* ===================================================================== *)
(** * Part IV: request authentication, [authenticateRequest] *)
(* ===================================================================== *)

Module AuthMiddleware.

Local Open Scope string_scope.

Inductive Role : Type := ADMIN | USER.

Record AuthUser : Type := mkAuthUser {
  id : string;
  email : string;
  name : option string;
  role : Role;
  isActive : bool
}.

(** The two shapes of [AuthResult] that [authenticateRequest] builds:
    [{ success: true, user }] and [{ success: false, error, statusCode }]. *)
Inductive AuthResult : Type :=
  | AuthSuccess (user : AuthUser)
  | AuthFailure (error : string) (statusCode : nat).

(** [s.substring(n)] *)
Fixpoint string_drop (n : nat) (s : string) : string :=
  match n, s with
  | O, _ => s
  | S n', String _ s' => string_drop n' s'
  | S _, EmptyString => EmptyString
  end.

Section Authenticate.

(** [jwtVerify]: the [userId] of the payload of a token that verifies,
    [None] when verification throws.  [findUser]: [db.user.findUnique] by
    id. *)
Variable jwtVerify : string → option string.
Variable findUser : string → option AuthUser.

(** [authorization] is the value of the Authorization header, [None] when
    there is none. *)
Definition authenticateRequest (authorization : option string) : AuthResult :=
  match authorization with
  | None => AuthFailure "Authorization token required" 401
  | Some authHeader =>
      if negb (String.prefix "Bearer " authHeader) then
        AuthFailure "Authorization token required" 401
      else
        let token := string_drop 7 authHeader in
        match jwtVerify token with
        | None => AuthFailure "Invalid or expired token" 401
        | Some userId =>
            match findUser userId with
            | None => AuthFailure "User not found" 404
            | Some user =>
                if isActive user then AuthSuccess user
                else AuthFailure "Account is deactivated" 403
            end
        end
  end.

End Authenticate.

Definition is_admin (r : Role) : bool :=
  match r with ADMIN => true | USER => false end.

(** [hasRequiredRole] *)
Definition hasRequiredRole (user : AuthUser) (requiredRole : Role) : bool :=
  match requiredRole with
  | ADMIN => is_admin (role user)
  | USER => true
  end.

(** A verifier and a user table for the examples. *)
Definition sample_jwtVerify (token : string) : option string :=
  if decide (token = "good") then Some "u1" else None.

Definition sample_findUser (userId : string) : option AuthUser :=
  if decide (userId = "u1") then
    Some {| id := "u1"; email := "alice@example.com"; name := None;
            role := USER; isActive := false |}
  else None.

End AuthMiddleware.

(* ===================================================================== *)
(** * Part V: the location routes, [locations/route.ts] and
      [locations/batch/route.ts] *)
(* ===================================================================== *)

Module LocationsApi.

Import Calculator LocationsRoute AuthMiddleware.
Local Open Scope string_scope.

(** The fields of a device row that the two routes read or write;
    [lastSeen] is in milliseconds. *)
Record Device : Type := mkDevice {
  dev_id : string;
  dev_deviceId : string;
  dev_userId : string;
  dev_isActive : bool;
  dev_latitude : option R;
  dev_longitude : option R;
  dev_speedKmh : option R;
  dev_speedMph : option R;
  dev_heading : option R;
  dev_motionState : option string;
  dev_lastSeen : option R
}.

(** A JSON response: an error with its status, or the payload sent with
    status 201. *)
Inductive Response (A : Type) : Type :=
  | ErrorResponse (status : nat) (error : string)
  | Created (payload : A).
Arguments ErrorResponse {A} status error.
Arguments Created {A} payload.

(** ** [POST /api/locations] *)

(** The helper at the end of route.ts, on two numbers. *)
Definition route_isValidCoordinates (lat lon : R) : bool :=
  Rleb (-90) lat && Rleb lat 90 && Rleb (-180) lon && Rleb lon 180.

(** The request body; an absent field is [None]. *)
Record Body : Type := mkBody {
  body_deviceId : option string;
  body_latitude : option R;
  body_longitude : option R;
  body_accuracy : option R;
  body_altitude : option R;
  body_speedKmh : option R;
  body_heading : option R
}.

(** The data written to the location row, the history row and the device,
    and returned in the response. *)
Record LocationRow : Type := mkLocationRow {
  row_device : string;              (* [device.id] *)
  row_deviceId : string;            (* [device.deviceId] *)
  row_latitude : R;
  row_longitude : R;
  row_accuracy : option R;
  row_altitude : option R;
  row_speedKmh : R;
  row_speedMph : option R;
  row_heading : option R;
  row_motionState : string
}.

(** [authResult.statusCode || 401] *)
Definition status_or_401 (statusCode : nat) : nat :=
  match statusCode with O => 401 | _ => statusCode end.

(** [findDevice] is [db.device.findUnique] by [deviceId], [findLatest] is
    [db.location.findFirst] for a device id, newest first, and [timeElapsed]
    the difference in milliseconds between the time of this fix and the time
    of that row.  The database calls are taken to succeed. *)
Definition POST
    (authResult : AuthResult) (body : Body)
    (findDevice : string → option Device)
    (findLatest : string → option PrevLocation)
    (timeElapsed : R) : Response LocationRow :=
  match authResult with
  | AuthFailure error statusCode =>
      ErrorResponse (status_or_401 statusCode) error
  | AuthSuccess user =>
      match body_deviceId body, body_latitude body, body_longitude body with
      | Some deviceId, Some latitude, Some longitude =>
          if decide (deviceId = "") then
            ErrorResponse 400 "deviceId, latitude, and longitude are required"
          else if negb (route_isValidCoordinates latitude longitude) then
            ErrorResponse 400 "Invalid GPS coordinates"
          else
            match findDevice deviceId with
            | None => ErrorResponse 404 "Device not found"
            | Some device =>
                if negb (is_admin (role user)) &&
                   negb (bool_decide (dev_userId device = id user)) then
                  ErrorResponse 403
                    "You do not have permission to update this device"
                else
                  let d := POST_derive (body_speedKmh body) (body_heading body)
                             (findLatest (dev_id device))
                             latitude longitude timeElapsed in
                  Created
                    {| row_device := dev_id device;
                       row_deviceId := dev_deviceId device;
                       row_latitude := latitude;
                       row_longitude := longitude;
                       row_accuracy := body_accuracy body;
                       row_altitude := body_altitude body;
                       row_speedKmh := storedSpeedKmh d;
                       row_speedMph := speedMph d;
                       row_heading := calculatedHeading d;
                       row_motionState := derivedMotionState d |}
            end
      | _, _, _ =>
          ErrorResponse 400 "deviceId, latitude, and longitude are required"
      end
  end.

(** ** [POST /api/locations/batch] *)

(** One element of [updates]; [upd_now] is [now.getTime()], the time of the
    update's timestamp, or of the clock when it has none. *)
Record Update : Type := mkUpdate {
  upd_deviceId : option string;
  upd_latitude : option R;
  upd_longitude : option R;
  upd_accuracy : option R;
  upd_altitude : option R;
  upd_now : R
}.

(** The location row created for an update. *)
Record BatchRow : Type := mkBatchRow {
  brow_device : string;
  brow_latitude : R;
  brow_longitude : R;
  brow_accuracy : option R;
  brow_altitude : option R;
  brow_speedKmh : option R;
  brow_speedMph : option R;
  brow_heading : R;
  brow_motionState : string;
  brow_timestamp : R
}.

(** An element of [results]. *)
Record BatchResult : Type := mkBatchResult {
  res_deviceId : string;
  res_location : BatchRow;
  res_device : Device
}.

(** An element of [errors]: [{ error, update }] or [{ error, deviceId }]. *)
Inductive BatchError : Type :=
  | UpdateError (error : string) (update : Update)
  | DeviceError (error : string) (deviceId : string).

(** [x > 0 ? x : null] *)
Definition positive_or_null (x : R) : option R :=
  if Rlt_dec 0 x then Some x else None.

(** The state of the loop: the device table, keyed by [deviceId], and the
    two arrays. *)
Record BatchState : Type := mkBatchState {
  devices : gmap string Device;
  results : list BatchResult;
  errors : list BatchError
}.

Definition push_error (e : BatchError) (st : BatchState) : BatchState :=
  {| devices := devices st; results := results st;
     errors := errors st ++ [e] |}.

(** The body of the loop, for the authenticated [user]. *)
Definition process_update (user : AuthUser) (st : BatchState) (update : Update)
  : BatchState :=
  match upd_deviceId update, upd_latitude update, upd_longitude update with
  | Some deviceId, Some latitude, Some longitude =>
      if decide (deviceId = "") then
        push_error
          (UpdateError "deviceId, latitude, and longitude are required" update)
          st
      else if negb (isValidCoordinates_check (Some latitude) (Some longitude))
      then push_error (UpdateError "Invalid coordinates" update) st
      else
        match devices st !! deviceId with
        | None => push_error (DeviceError "Device not found" deviceId) st
        | Some device =>
            if negb (bool_decide (dev_userId device = id user)) &&
               negb (is_admin (role user)) then
              push_error (DeviceError "Access denied" deviceId) st
            else if negb (dev_isActive device) then
              push_error (DeviceError "Device is not active" deviceId) st
            else
              let now := upd_now update in
              let timeElapsed :=
                match dev_lastSeen device with
                | Some lastSeen => Some (now - lastSeen)%R
                | None => None
                end in
              let locationData :=
                calculateLocationData (dev_latitude device)
                  (dev_longitude device) latitude longitude timeElapsed in
              let location :=
                {| brow_device := dev_id device;
                   brow_latitude := latitude;
                   brow_longitude := longitude;
                   brow_accuracy := upd_accuracy update;
                   brow_altitude := upd_altitude update;
                   brow_speedKmh :=
                     positive_or_null (kmh (speed locationData));
                   brow_speedMph :=
                     positive_or_null (mph (speed locationData));
                   brow_heading := bearing locationData;
                   brow_motionState := motionState locationData;
                   brow_timestamp := now |} in
              let updatedDevice :=
                {| dev_id := dev_id device;
                   dev_deviceId := dev_deviceId device;
                   dev_userId := dev_userId device;
                   dev_isActive := dev_isActive device;
                   dev_latitude := Some latitude;
                   dev_longitude := Some longitude;
                   dev_speedKmh :=
                     positive_or_null (kmh (speed locationData));
                   dev_speedMph :=
                     positive_or_null (mph (speed locationData));
                   dev_heading := Some (bearing locationData);
                   dev_motionState := Some (motionState locationData);
                   dev_lastSeen := Some now |} in
              {| devices := <[deviceId := updatedDevice]> (devices st);
                 results :=
                   results st ++
                   [{| res_deviceId := deviceId;
                       res_location := location;
                       res_device := updatedDevice |}];
                 errors := errors st |}
        end
  | _, _, _ =>
      push_error
        (UpdateError "deviceId, latitude, and longitude are required" update)
        st
  end.

(** The loop, from any state of the table and the two arrays. *)
Definition loop (user : AuthUser) (updates : list Update) (st : BatchState)
  : BatchState :=
  fold_left (process_update user) updates st.

(** The loop over [updates], from the stored table and two empty arrays. *)
Definition process_updates (user : AuthUser) (db : gmap string Device)
    (updates : list Update) : BatchState :=
  loop user updates {| devices := db; results := []; errors := [] |}.


(** ** Properties of a device table and of an update *)

(** Two versions of a device row with the same ids, owner and activation. *)
Definition same_identity (d d' : Device) : Prop :=
  dev_id d = dev_id d' ∧ dev_deviceId d = dev_deviceId d' ∧
  dev_userId d = dev_userId d' ∧ dev_isActive d = dev_isActive d'.

(** Two device tables with the same keys and, under each key, the same
    device up to its position and motion fields. *)
Definition same_devices (m m' : gmap string Device) : Prop :=
  ∀ k, match m !! k, m' !! k with
       | Some d, Some d' => same_identity d d'
       | None, None => True
       | _, _ => False
       end.

(** The conditions under which the loop body writes: the update names a
    device of the table and carries valid coordinates, and the device is
    active and is the user's own or the user is an administrator. *)
Definition accepted (user : AuthUser) (m : gmap string Device) (u : Update)
    (deviceId : string) (latitude longitude : R) (d : Device) : Prop :=
  upd_deviceId u = Some deviceId ∧ deviceId ≠ "" ∧
  upd_latitude u = Some latitude ∧ upd_longitude u = Some longitude ∧
  isValidCoordinates latitude longitude ∧
  m !! deviceId = Some d ∧
  (dev_userId d = id user ∨ role user = ADMIN) ∧
  dev_isActive d = true.

End LocationsApi.

(* ===================================================================== *)
(** * Part VI: the tracker page, [track/page.tsx] *)
(* ===================================================================== *)

Module TrackPage.

Import Calculator.

(** The page's own [determineMotionState] (lines 181-192): the same
    thresholds as the library's, without its test for NaN. *)
Definition determineMotionState (speedKmh : option number) : string :=
  match speedKmh with
  | None => "UNKNOWN"
  | Some s =>
      if number_lt s 2 then "STATIONARY"
      else if number_lt s 10 then "WALKING"
      else "DRIVING"
  end.

End TrackPage.

(* ===================================================================== *)
(** * Part VII: [calculateDistance] on doubles *)
(* ===================================================================== *)

Module Binary64.

Import PrimFloat.
Local Open Scope float_scope.

(** Lines 21-47 of [location.ts] on binary64 numbers.  [+], [-], [*], [/]
    and [Math.sqrt] are the correctly rounded operations of IEEE 754, which
    ECMAScript prescribes; [Math.sin], [Math.cos] and [Math.atan2] are
    approximations that the engine chooses, and are parameters here. *)

(** [Math.PI], the double nearest to the number PI. *)
Definition Math_PI : float := 0x1.921fb54442d18p+1.

Definition EARTH_RADIUS_KM : float := 6371.

Section Engine.

Variables Math_sin Math_cos : float -> float.
Variable Math_atan2 : float -> float -> float.

Definition toRadians (degrees : float) : float := degrees * (Math_PI / 180).

(** The local [a] of [calculateDistance]. *)
Definition haversine_a (lat1 lon1 lat2 lon2 : float) : float :=
  let dLat := toRadians (lat2 - lat1) in
  let dLon := toRadians (lon2 - lon1) in
  Math_sin (dLat / 2) * Math_sin (dLat / 2) +
  Math_cos (toRadians lat1) * Math_cos (toRadians lat2) *
  Math_sin (dLon / 2) * Math_sin (dLon / 2).

Definition calculateDistance (lat1 lon1 lat2 lon2 : float) : float :=
  let a := haversine_a lat1 lon1 lat2 lon2 in
  let c := 2 * Math_atan2 (sqrt a) (sqrt (1 - a)) in
  EARTH_RADIUS_KM * c.

End Engine.

(** The local [speedKmh] of [calculateSpeed] (lines 109-110), for a
    [timeMs] other than 0. *)
Definition speedKmh (distanceKm timeMs : float) : float :=
  let hours := timeMs / (1000 * 60 * 60) in
  distanceKm / hours.

(** An engine for the examples: at the four arguments that
    [calculateDistance (-82) (-180) 82 0] passes to [Math.sin] and
    [Math.cos] it returns the double nearest to the exact sine and cosine,
    and its [Math.atan2] is NaN when an argument is NaN. *)
Definition sample_sin (x : float) : float :=
  if x =? 0x1.6e6127ff9d971p+0 then 0x1.fb046a930947ap-1
  else if x =? 0x1.921fb54442d18p+0 then 1
  else 0.

Definition sample_cos (x : float) : float :=
  if abs x =? 0x1.6e6127ff9d971p+0 then 0x1.1d06c968d9e1ap-3 else 1.

Definition sample_atan2 (y x : float) : float :=
  if is_nan x || is_nan y then nan else 0.

End Binary64.

(* ===================================================================== *)
(** * Part VIII: the calculator on numbers that may be NaN *)
(* ===================================================================== *)

Module CalculatorNaN.

Import Calculator.
Local Open Scope R_scope.

(** [calculateSpeed] and [calculateLocationData] once more, with the type
    [number] for every value that depends on the distance: the number that
    [calculateDistance] returns on doubles is NaN for some coordinates
    ([Binary64.calculateDistance]), and the arithmetic of lines 109-116 and
    177-194 carries a NaN through to the result. *)

(** [n * k] and [n / k] for a number [n] and a real [k]; a zero [k] is the
    positive zero. *)
Definition number_mul (n : number) (k : R) : number :=
  match n with
  | NaN => NaN
  | Infinity negative =>
      if Rlt_dec 0 k then Infinity negative
      else if Rlt_dec k 0 then Infinity (negb negative)
      else NaN
  | Num r => Num (r * k)
  end.

Definition number_div (n : number) (k : R) : number :=
  match n with
  | NaN => NaN
  | Infinity negative =>
      if Rlt_dec k 0 then Infinity (negb negative) else Infinity negative
  | Num r =>
      if Req_dec_T k 0 then
        if Rlt_dec 0 r then Infinity false
        else if Rlt_dec r 0 then Infinity true
        else NaN
      else Num (r / k)
  end.

(** [Math.round n]: NaN and the infinities are returned as they are. *)
Definition number_round (n : number) : number :=
  match n with
  | Num r => Num (Math_round r)
  | _ => n
  end.

(** ** [calculateSpeed] *)

Record Speed : Type := mkSpeed { kmh : number; mph : number }.

Definition calculateSpeed (distanceKm : number) (timeMs : R) : Speed :=
  if Req_dec_T timeMs 0 then {| kmh := Num 0; mph := Num 0 |}
  else
    let hours := timeMs / (1000 * 60 * 60) in
    let speedKmh := number_div distanceKm hours in
    let speedMph := number_mul speedKmh 0.621371 in
    {| kmh := number_div (number_round (number_mul speedKmh 10)) 10;
       mph := number_div (number_round (number_mul speedMph 10)) 10 |}.

(** ** [calculateLocationData] *)

Record LocationCalculations : Type := mkLocationCalculations {
  distanceKm : number;
  distanceMiles : number;
  speed : Speed;
  bearing : R;
  compassDirection : option string;
  motionState : string
}.

Section Callees.

(** What the two calls on lines 176 and 186 return. *)
Variable calculateDistance : R -> R -> R -> R -> number.
Variable calculateBearing : R -> R -> R -> R -> R.

Definition calculateLocationData
    (prevLat prevLon : option R) (newLat newLon : R)
    (timeElapsed : option R) : LocationCalculations :=
  match prevLat, prevLon with
  | Some prevLat, Some prevLon =>
      let distanceKm := calculateDistance prevLat prevLon newLat newLon in
      let distanceMiles := number_mul distanceKm 0.621371 in
      let speed :=
        match timeElapsed with
        | Some t => if Rlt_dec 0 t then calculateSpeed distanceKm t
                    else {| kmh := Num 0; mph := Num 0 |}
        | None => {| kmh := Num 0; mph := Num 0 |}
        end in
      let bearing := calculateBearing prevLat prevLon newLat newLon in
      let compassDirection := getCompassDirection bearing in
      let motionState := determineMotionState (Some (kmh speed)) in
      {| distanceKm := number_div (number_round (number_mul distanceKm 100)) 100;
         distanceMiles :=
           number_div (number_round (number_mul distanceMiles 100)) 100;
         speed := speed;
         bearing := bearing;
         compassDirection := compassDirection;
         motionState := motionState |}
  | _, _ =>
      {| distanceKm := Num 0;
         distanceMiles := Num 0;
         speed := {| kmh := Num 0; mph := Num 0 |};
         bearing := 0;
         compassDirection := Some "N"%string;
         motionState := "UNKNOWN" |}
  end.

End Callees.

(** The result of the calculator in exact arithmetic, as a result over
    [number]. *)
Definition of_exact (r : Calculator.LocationCalculations)
  : LocationCalculations :=
  {| distanceKm := Num (Calculator.distanceKm r);
     distanceMiles := Num (Calculator.distanceMiles r);
     speed := {| kmh := Num (Calculator.kmh (Calculator.speed r));
                 mph := Num (Calculator.mph (Calculator.speed r)) |};
     bearing := Calculator.bearing r;
     compassDirection := Calculator.compassDirection r;
     motionState := Calculator.motionState r |}.

End CalculatorNaN.

(* ===================================================================== *)
(** * Properties of the calculator *)
(* ===================================================================== *)

Module CalculatorFacts.

Import Calculator.
Local Open Scope R_scope.

(** ** Rounding, truncation and remainder *)

Lemma Int_part_bounds (r : R) : IZR (Int_part r) <= r < IZR (Int_part r) + 1.
Proof. destruct (base_Int_part r). lra. Qed.

Lemma Int_part_nonneg (r : R) : 0 <= r -> (0 <= Int_part r)%Z.
Proof.
  intros Hr. destruct (Int_part_bounds r) as [_ Hup].
  assert (H : (-1 < Int_part r)%Z) by (apply lt_IZR; lra).
  lia.
Qed.


Lemma Math_round_nonneg (x : R) : 0 <= x -> 0 <= Math_round x.
Proof.
  intros Hx. unfold Math_round, round_to_Z. apply IZR_le, Int_part_nonneg. lra.
Qed.



(** [Math_round] is the nearest integer: within one half, ties upwards. *)
Lemma Math_round_nearest (x : R) :
  x - / 2 < Math_round x <= x + / 2.
Proof.
  unfold Math_round, round_to_Z. destruct (Int_part_bounds (x + / 2)). lra.
Qed.

Lemma Math_round_hundredths (x : R) :
  x - 0.005 < Math_round (x * 100) / 100 <= x + 0.005.
Proof. pose proof (Math_round_nearest (x * 100)). lra. Qed.

Lemma Math_round_tenths (x : R) :
  x - 0.05 < Math_round (x * 10) / 10 <= x + 0.05.
Proof. pose proof (Math_round_nearest (x * 10)). lra. Qed.

Lemma js_rem_range (x y : R) :
  0 <= x -> 0 < y -> 0 <= js_rem x y < y.
Proof.
  intros Hx Hy. unfold js_rem, Rtrunc.
  assert (Hq : 0 <= x / y) by (apply Rle_mult_inv_pos; lra).
  destruct (Rle_dec 0 (x / y)) as [_ | Hn]; [| contradiction].
  destruct (Int_part_bounds (x / y)) as [Hlo Hhi].
  assert (Hx' : x = y * (x / y)) by (field; lra).
  split.
  - apply (Rmult_le_compat_l y) in Hlo; lra.
  - apply (Rmult_lt_compat_l y) in Hhi; lra.
Qed.

(** ** [Math_atan2] *)

Lemma atan_nonneg (t : R) : 0 <= t -> 0 <= atan t.
Proof.
  intros [Ht | <-].
  - left. rewrite <- atan_0. now apply atan_increasing.
  - rewrite atan_0. lra.
Qed.

Lemma atan_nonpos (t : R) : t <= 0 -> atan t <= 0.
Proof.
  intros [Ht | ->].
  - left. rewrite <- atan_0. now apply atan_increasing.
  - rewrite atan_0. lra.
Qed.

Lemma Math_atan2_range (y x : R) : - PI < Math_atan2 y x <= PI.
Proof.
  pose proof PI_RGT_0 as Hpi.
  unfold Math_atan2.
  destruct (Rlt_dec 0 x) as [Hx | Hx].
  - pose proof (atan_bound (y / x)). lra.
  - destruct (Rlt_dec x 0) as [Hx' | Hx'].
    + destruct (Rle_dec 0 y) as [Hy | Hy].
      * pose proof (atan_bound (y / x)) as Hb.
        assert (Hq : y / x <= 0).
        { apply Ropp_le_cancel. rewrite Ropp_0.
          replace (- (y / x)) with (y / - x) by (field; lra).
          apply Rle_mult_inv_pos; lra. }
        pose proof (atan_nonpos _ Hq). lra.
      * pose proof (atan_bound (y / x)) as Hb.
        assert (Hq : 0 < y / x).
        { replace (y / x) with ((- y) / (- x)) by (field; lra).
          apply Rdiv_lt_0_compat; lra. }
        pose proof (atan_increasing _ _ Hq) as Hi. rewrite atan_0 in Hi. lra.
    + destruct (Rlt_dec 0 y); [lra |].
      destruct (Rlt_dec y 0); lra.
Qed.

Lemma Math_atan2_nonneg (y x : R) : 0 <= y -> 0 <= Math_atan2 y x.
Proof.
  intros Hy. pose proof PI_RGT_0 as Hpi.
  unfold Math_atan2.
  destruct (Rlt_dec 0 x) as [Hx | Hx].
  - apply atan_nonneg, Rle_mult_inv_pos; lra.
  - destruct (Rlt_dec x 0) as [Hx' | Hx'].
    + destruct (Rle_dec 0 y) as [_ | Hn]; [| contradiction].
      pose proof (atan_bound (y / x)). lra.
    + destruct (Rlt_dec 0 y); [lra |].
      destruct (Rlt_dec y 0); lra.
Qed.

(** ** Distance *)

Lemma toRadians_opp (d : R) : toRadians (- d) = - toRadians d.
Proof. unfold toRadians. ring. Qed.

Lemma haversine_a_sym (lat1 lon1 lat2 lon2 : R) :
  haversine_a lat1 lon1 lat2 lon2 = haversine_a lat2 lon2 lat1 lon1.
Proof.
  unfold haversine_a.
  replace (lat1 - lat2) with (- (lat2 - lat1)) by ring.
  replace (lon1 - lon2) with (- (lon2 - lon1)) by ring.
  rewrite !toRadians_opp.
  replace (- toRadians (lat2 - lat1) / 2)
    with (- (toRadians (lat2 - lat1) / 2)) by field.
  replace (- toRadians (lon2 - lon1) / 2)
    with (- (toRadians (lon2 - lon1) / 2)) by field.
  rewrite !sin_neg. ring.
Qed.

Lemma calculateDistance_sym (lat1 lon1 lat2 lon2 : R) :
  calculateDistance lat1 lon1 lat2 lon2 = calculateDistance lat2 lon2 lat1 lon1.
Proof. unfold calculateDistance. now rewrite haversine_a_sym. Qed.

Lemma calculateDistance_nonneg (lat1 lon1 lat2 lon2 : R) :
  0 <= calculateDistance lat1 lon1 lat2 lon2.
Proof.
  unfold calculateDistance, EARTH_RADIUS_KM.
  pose proof (Math_atan2_nonneg
                (sqrt (haversine_a lat1 lon1 lat2 lon2))
                (sqrt (1 - haversine_a lat1 lon1 lat2 lon2))
                (sqrt_pos _)).
  nra.
Qed.


(** For valid latitudes both square roots of [calculateDistance] are taken
    of a number in [0, 1], so [Math.sqrt] never yields NaN there. *)
Lemma haversine_a_bounds (lat1 lon1 lat2 lon2 : R) :
  -90 <= lat1 <= 90 -> -90 <= lat2 <= 90 ->
  0 <= haversine_a lat1 lon1 lat2 lon2 <= 1.
Proof.
  intros H1 H2. pose proof PI_RGT_0 as Hpi.
  unfold haversine_a.
  set (p1 := toRadians lat1). set (p2 := toRadians lat2).
  set (s := sin (toRadians (lat2 - lat1) / 2)).
  set (t := sin (toRadians (lon2 - lon1) / 2)).
  assert (Hc1 : 0 <= cos p1).
  { apply cos_ge_0; unfold p1, toRadians; nra. }
  assert (Hc2 : 0 <= cos p2).
  { apply cos_ge_0; unfold p2, toRadians; nra. }
  assert (Ht : 0 <= t * t <= 1).
  { pose proof (SIN_bound (toRadians (lon2 - lon1) / 2)). fold t in H. nra. }
  assert (Hhalf : toRadians (lat2 - lat1) / 2 = (p2 - p1) / 2).
  { unfold p1, p2, toRadians. field. }
  assert (Hk : cos p1 * cos p2 <= 1 - s * s).
  { unfold s. rewrite Hhalf.
    set (h := (p2 - p1) / 2).
    assert (Hd : cos (p2 - p1) = 1 - 2 * (sin h * sin h)).
    { replace (p2 - p1) with (2 * h) by (unfold h; field).
      rewrite cos_2a_sin. ring. }
    pose proof (COS_bound (p2 + p1)) as Hb.
    rewrite cos_plus in Hb. rewrite cos_minus in Hd. nra. }
  assert (Hs : 0 <= s * s) by nra.
  assert (Hp : 0 <= cos p1 * cos p2) by nra.
  split; nra.
Qed.

(** ** Bearing *)

Lemma calculateBearing_range (lat1 lon1 lat2 lon2 : R) :
  0 <= calculateBearing lat1 lon1 lat2 lon2 < 360.
Proof.
  unfold calculateBearing.
  match goal with |- context [Math_atan2 ?y ?x] =>
    pose proof (Math_atan2_range y x) as Hr; set (r := Math_atan2 y x) in * end.
  apply js_rem_range; [| lra].
  pose proof PI_RGT_0 as Hpi. unfold toDegrees.
  assert (Hd : - 180 < r * (180 / PI)).
  { replace (-180) with (- PI * (180 / PI)) by (field; lra).
    apply Rmult_lt_compat_r; [| lra].
    apply Rdiv_lt_0_compat; lra. }
  lra.
Qed.

(** ** Evaluating the built-ins at given numbers *)

Lemma Math_round_eq (x : R) (z : Z) :
  IZR z - / 2 <= x < IZR z + / 2 -> Math_round x = IZR z.
Proof.
  intros Hx. unfold Math_round, round_to_Z. f_equal. symmetry.
  apply Int_part_spec. lra.
Qed.

Lemma js_rem_eq (x y : R) (k : Z) :
  0 <= x -> 0 < y -> IZR k * y <= x < (IZR k + 1) * y ->
  js_rem x y = x - y * IZR k.
Proof.
  intros Hx Hy Hk. unfold js_rem, Rtrunc.
  assert (Hq : 0 <= x / y) by (apply Rle_mult_inv_pos; lra).
  destruct (Rle_dec 0 (x / y)) as [_ | Hn]; [| contradiction].
  replace (Int_part (x / y)) with k; [reflexivity |].
  apply Int_part_spec. split.
  - apply (Rmult_lt_reg_r y); [lra |].
    replace ((x / y - 1) * y) with (x - y) by (field; lra). nra.
  - apply (Rmult_le_reg_r y); [lra |].
    replace (x / y * y) with x by (field; lra). lra.
Qed.

Lemma Math_atan2_x0_pos (y : R) : 0 < y -> Math_atan2 y 0 = PI / 2.
Proof.
  intros Hy. unfold Math_atan2.
  destruct (Rlt_dec 0 0); [lra |].
  destruct (Rlt_dec 0 y); [reflexivity | contradiction].
Qed.

Lemma Math_atan2_x0_neg (y : R) : y < 0 -> Math_atan2 y 0 = - (PI / 2).
Proof.
  intros Hy. unfold Math_atan2.
  destruct (Rlt_dec 0 0); [lra |].
  destruct (Rlt_dec 0 y); [lra |].
  destruct (Rlt_dec y 0); [reflexivity | contradiction].
Qed.

(** Due east along the equator, and back. *)
Lemma calculateBearing_east : calculateBearing 0 0 0 90 = 90.
Proof.
  pose proof PI_RGT_0 as Hpi.
  unfold calculateBearing, toRadians, toDegrees.
  replace ((90 - 0) * (PI / 180)) with (PI / 2) by field.
  replace (0 * (PI / 180)) with 0 by ring.
  rewrite sin_PI2, cos_PI2, sin_0, cos_0.
  replace (1 * 0 - 0 * 1 * 0) with 0 by ring.
  rewrite Rmult_1_r, Math_atan2_x0_pos by lra.
  replace (PI / 2 * (180 / PI) + 360) with 450 by (field; lra).
  rewrite (js_rem_eq 450 360 1); lra.
Qed.

Lemma calculateBearing_west : calculateBearing 0 90 0 0 = 270.
Proof.
  pose proof PI_RGT_0 as Hpi.
  unfold calculateBearing, toRadians, toDegrees.
  replace ((0 - 90) * (PI / 180)) with (- (PI / 2)) by field.
  replace (0 * (PI / 180)) with 0 by ring.
  rewrite sin_neg, cos_neg, sin_PI2, cos_PI2, sin_0, cos_0.
  replace (1 * 0 - 0 * 1 * 0) with 0 by ring.
  rewrite Rmult_1_r, Math_atan2_x0_neg by lra.
  replace (- (PI / 2) * (180 / PI) + 360) with 270 by (field; lra).
  rewrite (js_rem_eq 270 360 0); lra.
Qed.

(** From the north pole towards the equator at longitude 0.005 the bearing
    is 180 - 0.005 degrees. *)
Lemma calculateBearing_from_pole : calculateBearing 90 0 0 0.005 = 179.995.
Proof.
  pose proof PI_RGT_0 as Hpi.
  unfold calculateBearing, toRadians, toDegrees.
  replace (90 * (PI / 180)) with (PI / 2) by field.
  replace (0 * (PI / 180)) with 0 by ring.
  rewrite cos_PI2, sin_PI2, cos_0, sin_0.
  set (l := (0.005 - 0) * (PI / 180)).
  assert (Hl : 0 < l < PI / 2) by (unfold l; lra).
  assert (Hc : 0 < cos l) by (apply cos_gt_0; lra).
  assert (Hs : 0 < sin l) by (apply sin_gt_0; lra).
  replace (sin l * 1) with (sin l) by ring.
  replace (0 * 0 - 1 * 1 * cos l) with (- cos l) by ring.
  unfold Math_atan2.
  destruct (Rlt_dec 0 (- cos l)); [lra |].
  destruct (Rlt_dec (- cos l) 0); [| lra].
  destruct (Rle_dec 0 (sin l)); [| lra].
  assert (Htan : sin l / - cos l = - tan l).
  { unfold tan, Rdiv. rewrite Rinv_opp. ring. }
  rewrite Htan.
  rewrite atan_opp, atan_tan by lra.
  replace ((- l + PI) * (180 / PI) + 360) with 539.995.
  2: { unfold l. replace 0.005 with (5 / 1000) by lra.
       replace 539.995 with (539995 / 1000) by lra. field. lra. }
  rewrite (js_rem_eq _ 360 1); lra.
Qed.

(** ** Speed *)

Lemma calculateSpeed_pos (distance t : R) :
  0 < t ->
  calculateSpeed distance t =
    {| kmh := Math_round (distance / (t / 3600000) * 10) / 10;
       mph := Math_round (distance / (t / 3600000) * 0.621371 * 10) / 10 |}.
Proof.
  intros Ht. unfold calculateSpeed.
  destruct (Req_dec_T t 0) as [E | _]; [lra |].
  replace (1000 * 60 * 60) with 3600000 by ring. reflexivity.
Qed.

Lemma elapsed_speed_pos (distance t : R) :
  0 < t -> elapsed_speed distance (Some t) = calculateSpeed distance t.
Proof.
  intros Ht. unfold elapsed_speed.
  destruct (Rlt_dec 0 t); [reflexivity | contradiction].
Qed.

Lemma elapsed_speed_zero (distance : R) (timeElapsed : option R) :
  (forall t, timeElapsed = Some t -> t <= 0) ->
  elapsed_speed distance timeElapsed = {| kmh := 0; mph := 0 |}.
Proof.
  intros H. unfold elapsed_speed. destruct timeElapsed as [t |]; [| reflexivity].
  destruct (Rlt_dec 0 t) as [Ht | _]; [| reflexivity].
  specialize (H t eq_refl). lra.
Qed.

Lemma elapsed_speed_tenths (distance : R) (timeElapsed : option R) :
  (exists k : Z, kmh (elapsed_speed distance timeElapsed) = IZR k / 10) /\
  (exists k : Z, mph (elapsed_speed distance timeElapsed) = IZR k / 10).
Proof.
  unfold elapsed_speed, calculateSpeed.
  assert (Hz : exists k : Z, 0 = IZR k / 10) by (exists 0%Z; lra).
  destruct timeElapsed as [t |]; [| now split].
  destruct (Rlt_dec 0 t); [| now split].
  destruct (Req_dec_T t 0); [now split |].
  unfold Math_round; cbn [kmh mph]; split; eexists; reflexivity.
Qed.

(** ** Motion state *)

Lemma determineMotionState_Num (x : R) :
  determineMotionState (Some (Num x)) =
    if Rlt_dec x 2 then "STATIONARY"%string
    else if Rlt_dec x 10 then "WALKING"%string else "DRIVING"%string.
Proof.
  unfold determineMotionState, isNaN, number_lt.
  destruct (Rlt_dec x 2); [reflexivity |].
  destruct (Rlt_dec x 10); reflexivity.
Qed.

(** ** The claims about the calculator *)

(** C4: the motion classification depends on the speed alone; a speed
    below 2 km/h is STATIONARY, a speed from 2 up to but excluding 10 km/h is
    WALKING, a speed of 10 km/h or more is DRIVING (so exactly 2 is WALKING
    and exactly 10 is DRIVING), and an absent or NaN speed is UNKNOWN. *)
Theorem C4_motion_classification (x : R) :
  (x < 2 -> determineMotionState (Some (Num x)) = "STATIONARY"%string) /\
  (2 <= x < 10 -> determineMotionState (Some (Num x)) = "WALKING"%string) /\
  (10 <= x -> determineMotionState (Some (Num x)) = "DRIVING"%string) /\
  determineMotionState (Some (Num 2)) = "WALKING"%string /\
  determineMotionState (Some (Num 10)) = "DRIVING"%string /\
  determineMotionState (Some (Infinity true)) = "STATIONARY"%string /\
  determineMotionState (Some (Infinity false)) = "DRIVING"%string /\
  determineMotionState None = "UNKNOWN"%string /\
  determineMotionState (Some NaN) = "UNKNOWN"%string.
Proof.
  repeat split; try reflexivity; try intros H;
    rewrite determineMotionState_Num;
    repeat match goal with
           | |- context [Rlt_dec ?a ?b] => destruct (Rlt_dec a b)
           end; try reflexivity; lra.
Qed.

Lemma C4_motion_classification_witness :
  determineMotionState (Some (Num 1.9)) = "STATIONARY"%string /\
  determineMotionState (Some (Num 5)) = "WALKING"%string /\
  determineMotionState (Some (Num 10)) = "DRIVING"%string.
Proof.
  split; [| split].
  - apply (proj1 (C4_motion_classification 1.9)). lra.
  - apply (proj1 (proj2 (C4_motion_classification 5))). lra.
  - apply (proj1 (proj2 (proj2 (C4_motion_classification 10)))). lra.
Defined.

(** C9: swapping the two endpoints leaves the returned distance unchanged
    for every pair of valid coordinates, while for some pair of valid
    coordinates the two bearings differ (here 90 and 270 degrees). *)
Theorem C9_distance_symmetric_bearing_not :
  (forall (lat1 lon1 lat2 lon2 : R) (t12 t21 : option R),
      isValidCoordinates lat1 lon1 -> isValidCoordinates lat2 lon2 ->
      calculateDistance lat1 lon1 lat2 lon2 =
        calculateDistance lat2 lon2 lat1 lon1 /\
      distanceKm (calculateLocationData (Some lat1) (Some lon1) lat2 lon2 t12) =
        distanceKm (calculateLocationData (Some lat2) (Some lon2) lat1 lon1 t21))
  /\
  (exists lat1 lon1 lat2 lon2 : R,
      isValidCoordinates lat1 lon1 /\ isValidCoordinates lat2 lon2 /\
      forall t12 t21 : option R,
        bearing (calculateLocationData (Some lat1) (Some lon1) lat2 lon2 t12) <>
        bearing (calculateLocationData (Some lat2) (Some lon2) lat1 lon1 t21)).
Proof.
  split.
  - intros lat1 lon1 lat2 lon2 t12 t21 _ _.
    cbn [calculateLocationData distanceKm].
    rewrite (calculateDistance_sym lat2 lon2 lat1 lon1). split; reflexivity.
  - exists 0, 0, 0, 90. unfold isValidCoordinates.
    repeat split; try lra.
    intros t12 t21. cbn [calculateLocationData bearing].
    rewrite calculateBearing_east, calculateBearing_west. lra.
Qed.

Lemma C9_distance_symmetric_bearing_not_witness :
  distanceKm (calculateLocationData (Some 40) (Some (-74)) 41 (-73) None) =
  distanceKm (calculateLocationData (Some 41) (Some (-73)) 40 (-74) None).
Proof.
  apply (proj1 C9_distance_symmetric_bearing_not 40 (-74) 41 (-73) None None);
    unfold isValidCoordinates; lra.
Defined.

(** C10, as stated, fails on the code for one numeric output: the bearing
    is returned as computed.  From the north pole to the point of the equator
    at longitude 0.005 it is 179.995, a multiple neither of 0.01 nor of
    0.1. *)
Lemma C10_counterexample :
  let r := calculateLocationData (Some 90) (Some 0) 0 0.005 (Some 1000) in
  bearing r = 179.995 /\
  (forall k : Z, bearing r <> IZR k / 100) /\
  (forall k : Z, bearing r <> IZR k / 10).
Proof.
  cbn [calculateLocationData bearing]. rewrite calculateBearing_from_pole.
  split; [reflexivity |]. split; intros k H.
  - assert (E : IZR (2 * k) = IZR 35999) by (rewrite mult_IZR; lra).
    apply eq_IZR in E. lia.
  - assert (E : IZR (20 * k) = IZR 35999) by (rewrite mult_IZR; lra).
    apply eq_IZR in E. lia.
Qed.

(** The rounding matters for the classification: 1.96 km covered in one
    hour is STATIONARY by the exact quotient and WALKING by the returned,
    rounded speed. *)
Lemma rounded_speed_changes_motion_state :
  kmh (calculateSpeed 1.96 3600000) = 2 /\
  determineMotionState (Some (Num (kmh (calculateSpeed 1.96 3600000)))) =
    "WALKING"%string /\
  determineMotionState (Some (Num (1.96 / (3600000 / 3600000)))) =
    "STATIONARY"%string.
Proof.
  assert (Hk : kmh (calculateSpeed 1.96 3600000) = 2).
  { rewrite calculateSpeed_pos by lra. cbn [kmh].
    rewrite (Math_round_eq _ 20); lra. }
  split; [exact Hk |]. rewrite Hk.
  rewrite !determineMotionState_Num.
  repeat match goal with
         | |- context [Rlt_dec ?a ?b] => destruct (Rlt_dec a b)
         end; try lra; split; reflexivity.
Qed.

End CalculatorFacts.

(* ===================================================================== *)
(** * Properties of the derivation in [POST /api/locations] *)
(* ===================================================================== *)

Module RouteFacts.

Import Calculator LocationsRoute CalculatorFacts.
Local Open Scope R_scope.








End RouteFacts.

(* ===================================================================== *)
(** * Properties of the WebSocket service *)
(* ===================================================================== *)

Module ServiceFacts.

Import Service.
Local Open Scope string_scope.
#[local] Set Warnings "-clear-no-such-hyp".

(** ** The maps of sets *)

Lemma without_Some (id : string) (s s' : gset string) :
  without id s = Some s' → s' = s ∖ {[id]} ∧ s' ≠ ∅.
Proof.
  unfold without. case_decide as Hsz; [discriminate |].
  intros [= <-]. split; [reflexivity |].
  intros He. apply Hsz. rewrite He. apply size_empty.
Qed.

Lemma lookup_add_member (key id k : string) (m : gmap string (gset string)) :
  add_member key id m !! k =
    if decide (key = k) then Some ({[id]} ∪ members key m) else m !! k.
Proof. unfold add_member. apply lookup_insert. Qed.

Lemma lookup_remove_member (key id k : string) (m : gmap string (gset string)) :
  remove_member key id m !! k =
    if decide (key = k) then m !! key ≫= without id else m !! k.
Proof.
  unfold remove_member.
  destruct (m !! key) as [s |] eqn:Hs; cbn.
  - destruct (without id s) as [s' |] eqn:Hw.
    + rewrite lookup_insert. case_decide; [reflexivity | reflexivity].
    + rewrite lookup_delete. case_decide; reflexivity.
  - case_decide as Hk; [subst k; exact Hs | reflexivity].
Qed.

Lemma lookup_remove_everywhere (id k : string) (m : gmap string (gset string)) :
  remove_everywhere id m !! k = m !! k ≫= without id.
Proof. unfold remove_everywhere. apply lookup_omap. Qed.

Lemma elem_of_members (key id : string) (m : gmap string (gset string)) :
  id ∈ members key m ↔ ∃ s, m !! key = Some s ∧ id ∈ s.
Proof.
  unfold members. destruct (m !! key) as [s |]; cbn.
  - split; [eauto |]. now intros (s' & [= <-] & Hin).
  - split; [set_solver |]. now intros (s' & [=] & _).
Qed.

(** ** The registry invariant *)

Lemma registry_inv_initial : registry_inv initial.
Proof. split; [intros d s; cbn; now rewrite lookup_empty | cbn; set_solver]. Qed.

Section Preservation.

Variable verifyToken : string → option User.

Lemma on_connection_inv (id : string) (st : State) :
  id ∉ closed st → registry_inv st → registry_inv (on_connection id st).1.
Proof.
  intros Hid [Hm Hd]. split; cbn.
  - intros d s Hs. destruct (Hm d s Hs) as [Hne Hsub]. clear Hm Hd.
    split; [exact Hne | set_solver].
  - clear Hm. set_solver.
Qed.

Lemma on_disconnect_inv (id : string) (st : State) :
  registry_inv st → registry_inv (on_disconnect id st).1.
Proof.
  intros [Hm Hd]. split; cbn.
  - intros d s'. rewrite lookup_remove_everywhere.
    destruct (connectedDevices st !! d) as [s |] eqn:Hs; [| discriminate].
    cbn. intros [-> Hne]%without_Some. destruct (Hm d s Hs) as [_ Hsub].
    clear Hm Hd. split; [exact Hne | set_solver].
  - clear Hm. set_solver.
Qed.

Lemma on_authenticate_inv (id token : string) (st : State) :
  registry_inv st → registry_inv (on_authenticate verifyToken id token st).1.
Proof.
  intros Hinv. unfold on_authenticate.
  destruct (verifyToken token) as [user |].
  - destruct Hinv as [Hm Hd]. split; cbn; assumption.
  - apply (on_disconnect_inv id) in Hinv.
    destruct (on_disconnect id st) as [st' out]. exact Hinv.
Qed.

Lemma on_device_register_inv (id deviceId : string) (st : State) :
  id ∈ connected st → registry_inv st →
  registry_inv (on_device_register id deviceId st).1.
Proof.
  intros Hid Hinv. unfold on_device_register.
  destruct (socketToUser st !! id) as [user |]; [| exact Hinv].
  destruct Hinv as [Hm Hd]. split; cbn; [| assumption].
  intros d s. rewrite lookup_add_member. case_decide as Hk.
  - intros [= <-]. split; [clear; set_solver |].
    apply union_subseteq. split; [clear Hm Hd; set_solver |].
    intros x [s0 [Hs0 Hx]]%elem_of_members.
    destruct (Hm _ _ Hs0) as [_ Hsub]. clear Hm Hd. set_solver.
  - apply Hm.
Qed.

Lemma on_location_update_state
    (id deviceId : string) (location : Location) (now now' : string)
    (st : State) :
  (on_location_update id deviceId location now now' st).1 = st.
Proof.
  unfold on_location_update. now destruct (socketToUser st !! id).
Qed.

Lemma on_device_unregister_inv (id deviceId : string) (st : State) :
  registry_inv st → registry_inv (on_device_unregister id deviceId st).1.
Proof.
  intros Hinv. unfold on_device_unregister.
  destruct (socketToUser st !! id) as [user |]; [| exact Hinv].
  destruct Hinv as [Hm Hd]. split; cbn; [| assumption].
  intros d s'. rewrite lookup_remove_member. case_decide as Hk; [| apply Hm].
  destruct (connectedDevices st !! deviceId) as [s |] eqn:Hs; [| discriminate].
  cbn. intros [-> Hne]%without_Some. destruct (Hm _ _ Hs) as [_ Hsub].
  clear Hm Hd. split; [exact Hne | set_solver].
Qed.

Lemma step_inv (ev : Event) (st : State) :
  registry_inv st → registry_inv (step verifyToken ev st).1.
Proof.
  intros Hinv. unfold step.
  destruct ev as [id | id token | id d | id d l now now' | id d | id]; cbn [socket_of].
  - case_decide as Hin; [exact Hinv |].
    apply on_connection_inv; [set_solver | exact Hinv].
  - case_decide; [now apply on_authenticate_inv | exact Hinv].
  - case_decide; [now apply on_device_register_inv | exact Hinv].
  - case_decide; [now rewrite on_location_update_state | exact Hinv].
  - case_decide; [now apply on_device_unregister_inv | exact Hinv].
  - case_decide; [now apply on_disconnect_inv | exact Hinv].
Qed.

Lemma run_inv (evs : list Event) (st : State) :
  registry_inv st → registry_inv (run verifyToken evs st).1.
Proof.
  revert st. induction evs as [| ev evs IH]; intros st Hinv; [exact Hinv |].
  cbn [run]. pose proof (step_inv ev st Hinv) as Hstep.
  destruct (step verifyToken ev st) as [st1 out1]. cbn [fst] in Hstep.
  specialize (IH st1 Hstep).
  destruct (run verifyToken evs st1) as [st2 out2]. exact IH.
Qed.

(** A socket that has disconnected stays closed. *)
Lemma step_closed_mono (ev : Event) (st : State) :
  closed st ⊆ closed (step verifyToken ev st).1.
Proof.
  unfold step.
  destruct ev as [id | id token | id d | id d l now now' | id d | id];
    cbn [socket_of]; case_decide; try reflexivity.
  - unfold on_authenticate. destruct (verifyToken token); cbn; set_solver.
  - unfold on_device_register. now destruct (socketToUser st !! id).
  - now rewrite on_location_update_state.
  - unfold on_device_unregister. now destruct (socketToUser st !! id).
  - cbn. set_solver.
Qed.

(** After its [disconnect] handler has run, a connected socket is closed. *)
Lemma step_disconnect_closes (id : string) (st : State) :
  id ∈ connected st → id ∈ closed (step verifyToken (Disconnect id) st).1.
Proof.
  intros Hin. unfold step. cbn [socket_of].
  case_decide; [cbn; set_solver | contradiction].
Qed.

End Preservation.

Lemma registry_inv_claims (st : State) :
  registry_inv st → no_closed_member st ∧ no_empty_topic st.
Proof.
  intros [Hm Hd]. split.
  - intros d id [s [Hs Hin]]%elem_of_members.
    destruct (Hm _ _ Hs) as [_ Hsub]. clear Hm. set_solver.
  - intros d s Hs. now destruct (Hm _ _ Hs).
Qed.

(** ** [location:update] *)

Lemma recipients_io_to_emit (room : string) (message : Message) (st : State) :
  recipients (io_to_emit room message st) = elements (members room (rooms st)).
Proof.
  unfold recipients, io_to_emit. rewrite <- list_fmap_compose.
  apply list_fmap_id.
Qed.

Lemma on_location_update_authenticated
    (id deviceId : string) (location : Location) (now now' : string)
    (st : State) (user : User) :
  socketToUser st !! id = Some user →
  on_location_update id deviceId location now now' st =
    (st, io_to_emit (device_room deviceId)
           (LocationUpdateEvent deviceId (relayed location now) now') st).
Proof. intros Hu. unfold on_location_update. now rewrite Hu. Qed.

Lemma fan_out_state_rooms :
  members (device_room "d1") (rooms fan_out_state) = {["A"; "B"]} ∧
  members (device_room "d2") (rooms fan_out_state) = {["C"]} ∧
  socketToUser fan_out_state !! "A" = Some alice ∧
  "A" ∈ connected fan_out_state.
Proof.
  split; [vm_compute; reflexivity |].
  split; [vm_compute; reflexivity |].
  split; [vm_compute; reflexivity |].
  refine (bool_decide_unpack _ _). vm_compute. exact I.
Qed.

(** ** Runs *)

Section Runs.

Variable verifyToken : string → option User.

Lemma run_app (evs1 evs2 : list Event) (st : State) :
  (run verifyToken (evs1 ++ evs2) st).1 =
  (run verifyToken evs2 (run verifyToken evs1 st).1).1.
Proof.
  revert st. induction evs1 as [| ev evs1 IH]; intros st; [reflexivity |].
  cbn [run app]. destruct (step verifyToken ev st) as [st1 out1].
  specialize (IH st1).
  destruct (run verifyToken (evs1 ++ evs2) st1) as [st2 out2].
  destruct (run verifyToken evs1 st1) as [st3 out3]. cbn [fst] in *.
  rewrite IH. now destruct (run verifyToken evs2 st3).
Qed.

Lemma run_cons (ev : Event) (evs : list Event) (st : State) :
  (run verifyToken (ev :: evs) st).1 =
  (run verifyToken evs (step verifyToken ev st).1).1.
Proof.
  cbn [run]. destruct (step verifyToken ev st) as [st1 out1]. cbn [fst].
  now destruct (run verifyToken evs st1).
Qed.

Lemma run_closed_mono (evs : list Event) (st : State) :
  closed st ⊆ closed (run verifyToken evs st).1.
Proof.
  revert st. induction evs as [| ev evs IH]; intros st; [reflexivity |].
  rewrite run_cons. etrans; [apply (step_closed_mono verifyToken ev) | apply IH].
Qed.

(** ** The rooms follow [connectedDevices] *)

Lemma device_room_inj (d d' : string) : device_room d = device_room d' → d = d'.
Proof. unfold device_room. cbn. intros [= H]. exact H. Qed.

Lemma user_room_plain (u : string) : plain_id (user_room u).
Proof. intros d. unfold user_room, device_room. cbn. discriminate. Qed.

Lemma step_sync (ev : Event) (st : State) :
  plain_id (socket_of ev) → rooms_sync st →
  rooms_sync (step verifyToken ev st).1.
Proof.
  intros Hid Hsync. unfold step.
  assert (Hdis : rooms_sync (on_disconnect (socket_of ev) st).1).
  { intros d. cbn. now rewrite !lookup_remove_everywhere, Hsync. }
  destruct ev as [id | id token | id d0 | id d0 l now now' | id d0 | id];
    cbn [socket_of] in *; case_decide; try exact Hsync.
  - intros d. cbn. rewrite lookup_add_member.
    case_decide as Hk; [now destruct (Hid d) | apply Hsync].
  - unfold on_authenticate. destruct (verifyToken token) as [user |].
    + intros d. cbn. rewrite lookup_add_member.
      case_decide as Hk; [now destruct (user_room_plain (userId user) d) |].
      apply Hsync.
    + destruct (on_disconnect id st) as [st' out]. exact Hdis.
  - unfold on_device_register.
    destruct (socketToUser st !! id); [| exact Hsync].
    intros d. cbn. rewrite !lookup_add_member. unfold members.
    rewrite Hsync. case_decide as Hk.
    + apply device_room_inj in Hk. subst d0. now rewrite decide_True.
    + rewrite decide_False; [apply Hsync | congruence].
  - now rewrite on_location_update_state.
  - unfold on_device_unregister.
    destruct (socketToUser st !! id); [| exact Hsync].
    intros d. cbn. rewrite !lookup_remove_member, Hsync. case_decide as Hk.
    + apply device_room_inj in Hk. subst d0. now rewrite decide_True.
    + rewrite decide_False; [apply Hsync | congruence].
  - exact Hdis.
Qed.

Lemma run_sync (evs : list Event) (st : State) :
  Forall (λ ev, plain_id (socket_of ev)) evs → rooms_sync st →
  rooms_sync (run verifyToken evs st).1.
Proof.
  intros Hevs. revert st.
  induction Hevs as [| ev evs Hev _ IH]; intros st Hsync; [exact Hsync |].
  rewrite run_cons. now apply IH, step_sync.
Qed.

(** In a run whose socket ids are not names of device rooms, a fix
    published by an authenticated socket goes to [membersOf] of the device. *)
Lemma publish_recipients_membersOf
    (evs : list Event) (id deviceId : string) (location : Location)
    (now now' : string) (user : User) :
  Forall (λ ev, plain_id (socket_of ev)) evs →
  let st := (run verifyToken evs initial).1 in
  socketToUser st !! id = Some user →
  recipients (on_location_update id deviceId location now now' st).2 =
    elements (membersOf deviceId st).
Proof.
  intros Hevs st Hu.
  rewrite (on_location_update_authenticated _ _ _ _ _ _ _ Hu).
  cbn [snd]. rewrite recipients_io_to_emit. unfold membersOf, members.
  assert (Hsync : rooms_sync st) by (apply run_sync; [exact Hevs | easy]).
  now rewrite Hsync.
Qed.

End Runs.

(** ** The claims about the service *)

(** C1, as stated, fails on the code: a socket authenticated with Alice's
    token that authenticates again with Bob's token gets the success
    callback and the [authenticated] event once more, and is then bound to
    Bob. *)
Lemma C1_counterexample :
  let st0 := (on_connection "s1" initial).1 in
  let st1 := (on_authenticate sample_verifyToken "s1" "token-alice" st0).1 in
  let second := on_authenticate sample_verifyToken "s1" "token-bob" st1 in
  socketToUser st1 !! "s1" = Some alice ∧
  second.2 = [("s1", CallbackSuccess (Some bob));
              ("s1", AuthenticatedEvent bob)] ∧
  socketToUser second.1 !! "s1" = Some bob ∧
  bob ≠ alice.
Proof.
  repeat split; try (vm_compute; reflexivity). discriminate.
Qed.

(** C1, amended: an authenticate call whose token verifies succeeds on
    every connection, authenticated before or not: it answers with the
    success callback and the [authenticated] event and binds the connection
    to the identity of this latest call, so a connection has one identity at
    a time, the last one verified; the bindings of the other connections and
    [connectedDevices] are unchanged. *)
Theorem C1_authenticate_rebinds
    (verifyToken : string → option User) (id token : string) (user : User)
    (st : State) :
  verifyToken token = Some user →
  let result := on_authenticate verifyToken id token st in
  result.2 = [(id, CallbackSuccess (Some user)); (id, AuthenticatedEvent user)] ∧
  socketToUser result.1 !! id = Some user ∧
  (∀ id', id' ≠ id → socketToUser result.1 !! id' = socketToUser st !! id') ∧
  connectedDevices result.1 = connectedDevices st.
Proof.
  intros Hv result. unfold result, on_authenticate. rewrite Hv. cbn.
  split; [reflexivity |]. split; [apply lookup_insert_eq |].
  split; [| reflexivity].
  intros id' Hne. now apply lookup_insert_ne.
Qed.

Lemma C1_authenticate_rebinds_witness :
  let st0 := (on_connection "s1" initial).1 in
  let st1 := (on_authenticate sample_verifyToken "s1" "token-alice" st0).1 in
  socketToUser
    (on_authenticate sample_verifyToken "s1" "token-bob" st1).1 !! "s1"
  = Some bob.
Proof.
  intros st0 st1.
  apply (C1_authenticate_rebinds sample_verifyToken "s1" "token-bob" bob st1).
  reflexivity.
Defined.

(** C2, as stated, fails on the code: Alice's socket, joined to d1 with no
    earlier fix, publishes a fix that carries the motion state DRIVING.  The
    message sent to the room is that fix with a timestamp, the server state
    after the call is the state before it (nothing is cached), and the motion
    state delivered is the sender's DRIVING where the calculator gives
    UNKNOWN for a fix without a previous one. *)
Lemma C2_counterexample :
  let st := (run sample_verifyToken
               [Connection "A"; Authenticate "A" "token-alice";
                DeviceRegister "A" "d1"] initial).1 in
  let fix_ := {| latitude := 40; longitude := -74; speedKmh := None;
                 heading := None; motionState := Some "DRIVING";
                 timestamp := None |} in
  let result := on_location_update "A" "d1" fix_ "t1" "t2" st in
  result.2 =
    [("A", LocationUpdateEvent "d1"
             {| latitude := 40; longitude := -74; speedKmh := None;
                heading := None; motionState := Some "DRIVING";
                timestamp := Some "t1" |} "t2")] ∧
  result.1 = st ∧
  Calculator.motionState
    (Calculator.calculateLocationData None None 40 (-74) None) = "UNKNOWN" ∧
  Some (Calculator.motionState
          (Calculator.calculateLocationData None None 40 (-74) None))
    ≠ motionState (relayed fix_ "t1").
Proof.
  intros st fix_ result.
  assert (Hu : socketToUser st !! "A" = Some alice) by (vm_compute; reflexivity).
  assert (Hr : elements (members (device_room "d1") (rooms st)) = ["A"])
    by (vm_compute; reflexivity).
  unfold result.
  rewrite (on_location_update_authenticated _ _ _ _ _ _ _ Hu).
  cbn [fst snd]. unfold io_to_emit. rewrite Hr.
  split; [reflexivity |]. split; [reflexivity |]. split; [reflexivity |].
  cbn. discriminate.
Qed.

(** C2, amended: for every [location:update] by an authenticated sender
    the message sent to each socket in the device's room is the sender's own
    location object, with its timestamp set to the receipt time when it
    carries none, together with the device id and [updatedAt]; the calculator
    is not called and the server state, which has no prior-fix cache, is left
    as it was; with no socket in the room nothing is sent. *)
Theorem C2_publish_relays_raw_fix
    (id deviceId : string) (location : Location) (now now' : string)
    (st : State) (user : User) :
  socketToUser st !! id = Some user →
  let result := on_location_update id deviceId location now now' st in
  let event := LocationUpdateEvent deviceId (relayed location now) now' in
  result.1 = st ∧
  result.2 =
    (λ m, (m, event)) <$> elements (members (device_room deviceId) (rooms st)) ∧
  (members (device_room deviceId) (rooms st) = ∅ → result.2 = []).
Proof.
  intros Hu result event. unfold result.
  rewrite (on_location_update_authenticated _ _ _ _ _ _ _ Hu). cbn [fst snd].
  split; [reflexivity |]. split; [reflexivity |].
  intros He. unfold io_to_emit. rewrite He, elements_empty. reflexivity.
Qed.

Lemma C2_publish_relays_raw_fix_witness :
  let fix_ := {| latitude := 40; longitude := -74; speedKmh := None;
                 heading := None; motionState := None; timestamp := None |} in
  (on_location_update "A" "d3" fix_ "t1" "t2" fan_out_state).2 = [].
Proof.
  intros fix_.
  destruct (C2_publish_relays_raw_fix "A" "d3" fix_ "t1" "t2" fan_out_state
              alice) as (_ & _ & H).
  - vm_compute; reflexivity.
  - apply H. vm_compute; reflexivity.
Defined.

(** C5: a [location:update] from a socket with no entry in [socketToUser]
    is answered with the error "Not authenticated" sent to that socket alone;
    nothing is broadcast and the state is unchanged. *)
Theorem C5_unauthenticated_publish
    (id deviceId : string) (location : Location) (now now' : string)
    (st : State) :
  socketToUser st !! id = None →
  on_location_update id deviceId location now now' st =
    (st, [(id, ErrorEvent "Not authenticated")]).
Proof. intros Hu. unfold on_location_update. now rewrite Hu. Qed.

Lemma C5_unauthenticated_publish_witness :
  let fix_ := {| latitude := 40; longitude := -74; speedKmh := None;
                 heading := None; motionState := None; timestamp := None |} in
  on_location_update "X" "d1" fix_ "t1" "t2" fan_out_state =
    (fan_out_state, [("X", ErrorEvent "Not authenticated")]).
Proof.
  intros fix_.
  apply (C5_unauthenticated_publish "X" "d1" fix_ "t1" "t2" fan_out_state).
  vm_compute; reflexivity.
Defined.

(** C6: a [location:update] by an authenticated sender is sent to exactly
    the sockets in the device's room, each once and all with the same
    message, the sender included when it is in the room; with A and B in the
    room of d1 and C only in the room of d2, a fix published by A for d1
    reaches A and B and does not reach C. *)
Theorem C6_broadcast_fan_out :
  (∀ (id deviceId : string) (location : Location) (now now' : string)
     (st : State) (user : User),
      socketToUser st !! id = Some user →
      let out := (on_location_update id deviceId location now now' st).2 in
      recipients out = elements (members (device_room deviceId) (rooms st)) ∧
      NoDup (recipients out) ∧
      (∀ id', id' ∈ recipients out ↔
              id' ∈ members (device_room deviceId) (rooms st)) ∧
      (∀ d, d ∈ out →
            d.2 = LocationUpdateEvent deviceId (relayed location now) now'))
  ∧
  (∀ (location : Location) (now now' : string),
      let out := (step sample_verifyToken
                    (LocationUpdate "A" "d1" location now now')
                    fan_out_state).2 in
      "A" ∈ recipients out ∧ "B" ∈ recipients out ∧ "C" ∉ recipients out).
Proof.
  assert (Hgen : ∀ (id deviceId : string) (location : Location)
                   (now now' : string) (st : State) (user : User),
             socketToUser st !! id = Some user →
             recipients (on_location_update id deviceId location now now' st).2
             = elements (members (device_room deviceId) (rooms st))).
  { intros id deviceId location now now' st user Hu.
    rewrite (on_location_update_authenticated _ _ _ _ _ _ _ Hu).
    apply recipients_io_to_emit. }
  split.
  - intros id deviceId location now now' st user Hu out.
    pose proof (Hgen id deviceId location now now' st user Hu) as Hrec.
    fold out in Hrec. rewrite Hrec.
    split; [reflexivity |]. split; [apply NoDup_elements |].
    split; [intros id'; apply elem_of_elements |].
    intros d. unfold out.
    rewrite (on_location_update_authenticated _ _ _ _ _ _ _ Hu). cbn [snd].
    unfold io_to_emit. intros (m & -> & _)%list_elem_of_fmap. reflexivity.
  - intros location now now' out.
    destruct fan_out_state_rooms as (Hd1 & _ & Hu & Hc).
    assert (Hrec : recipients out = elements ({["A"; "B"]} : gset string)).
    { unfold out, step. cbn [socket_of]. rewrite decide_True by exact Hc.
      rewrite (Hgen _ _ _ _ _ _ _ Hu), Hd1. reflexivity. }
    rewrite Hrec, !elem_of_elements. clear. set_solver.
Qed.

Lemma C6_broadcast_fan_out_witness :
  let fix_ := {| latitude := 40; longitude := -74; speedKmh := None;
                 heading := None; motionState := None; timestamp := None |} in
  recipients (on_location_update "A" "d2" fix_ "t1" "t2" fan_out_state).2 =
    elements (members (device_room "d2") (rooms fan_out_state)).
Proof.
  intros fix_.
  apply (proj1 C6_broadcast_fan_out "A" "d2" fix_ "t1" "t2" fan_out_state alice).
  vm_compute; reflexivity.
Defined.

(** C7: after any finite sequence of connections, authentications,
    device registrations (joins), device unregistrations (leaves), location
    updates and disconnections, no member set of [connectedDevices] holds the
    id of a socket whose disconnect handler has run, and no device is left
    with an empty member set; in particular a socket is in no member set at
    any point after its disconnect handler has run. *)
Theorem C7_membership_invariant
    (verifyToken : string → option User) (evs : list Event) :
  let st := (run verifyToken evs initial).1 in
  no_closed_member st ∧
  no_empty_topic st ∧
  (∀ evs1 evs2 id d,
      evs = (evs1 ++ Disconnect id :: evs2)%list →
      id ∈ connected (run verifyToken evs1 initial).1 →
      id ∉ membersOf d st).
Proof.
  intros st.
  destruct (registry_inv_claims st) as [Hclosed Hempty];
    [apply run_inv, registry_inv_initial |].
  split; [exact Hclosed |]. split; [exact Hempty |].
  intros evs1 evs2 id d Hevs Hconn Hmem.
  apply (Hclosed d id Hmem).
  unfold st. rewrite Hevs, run_app, run_cons.
  apply run_closed_mono. now apply step_disconnect_closes.
Qed.

Lemma C7_membership_invariant_witness :
  let st := (run sample_verifyToken (fan_out_setup ++ [Disconnect "A"])
               initial).1 in
  ("B" ∉ closed st) ∧ ("A" ∉ membersOf "d1" st).
Proof.
  intros st. split.
  - apply (proj1 (C7_membership_invariant sample_verifyToken
                    (fan_out_setup ++ [Disconnect "A"])) "d1" "B").
    refine (bool_decide_unpack _ _). vm_compute. exact I.
  - apply (proj2 (proj2 (C7_membership_invariant sample_verifyToken
                           (fan_out_setup ++ [Disconnect "A"])))
             fan_out_setup [] "A" "d1" eq_refl).
    refine (bool_decide_unpack _ _). vm_compute. exact I.
Defined.

End ServiceFacts.

(* ===================================================================== *)
(** * Further properties of the calculator *)
(* ===================================================================== *)

Module CalculatorMore.

Import Calculator CalculatorFacts.
Local Open Scope R_scope.

(** ** Compass directions *)

Lemma round_to_Z_eq (x : R) (k : Z) :
  IZR k - / 2 <= x < IZR k + / 2 -> round_to_Z x = k.
Proof.
  intros Hx. unfold round_to_Z. symmetry. apply Int_part_spec. lra.
Qed.

Lemma round_to_Z_bounds (x : R) :
  IZR (round_to_Z x) - / 2 <= x < IZR (round_to_Z x) + / 2.
Proof.
  unfold round_to_Z. destruct (Int_part_bounds (x + / 2)). lra.
Qed.

Lemma compass_sector (b : R) (k : Z) :
  (0 <= k <= 8)%Z ->
  45 * IZR k - 22.5 <= b < 45 * IZR k + 22.5 ->
  getCompassDirection b = nth_error directions (Z.to_nat (k mod 8)).
Proof.
  intros Hk Hb. unfold getCompassDirection.
  rewrite (round_to_Z_eq (b / 45) k) by lra.
  rewrite Z.rem_mod_nonneg by lia.
  assert (Hm : (0 <= k mod 8 < 8)%Z) by (apply Z.mod_pos_bound; lia).
  destruct (Z.ltb_spec (k mod 8) 0); [lia | reflexivity].
Qed.

(** The compass has eight sectors of 45 degrees centred on the multiples
    of 45: a bearing within 22.5 degrees below (inclusive) and above
    (exclusive) of [45 * k] is named by entry [k mod 8] of [directions]; the
    ninth sector, from 337.5 degrees on, is N again. *)
Theorem getCompassDirection_sector (b : R) (k : Z) :
  (0 <= k <= 8)%Z ->
  45 * IZR k - 22.5 <= b < 45 * IZR k + 22.5 ->
  getCompassDirection b = nth_error directions (Z.to_nat (k mod 8)).
Proof. exact (compass_sector b k). Qed.

Lemma getCompassDirection_sector_witness :
  getCompassDirection 100 = Some "E"%string /\
  getCompassDirection 350 = Some "N"%string.
Proof.
  split.
  - apply (getCompassDirection_sector 100 2); [lia | lra].
  - apply (getCompassDirection_sector 350 8); [lia | lra].
Defined.

Lemma getCompassDirection_total (b : R) :
  0 <= b < 360 ->
  exists d, getCompassDirection b = Some d /\ In d directions.
Proof.
  intros Hb. pose proof (round_to_Z_bounds (b / 45)) as Hr.
  set (k := round_to_Z (b / 45)) in *.
  assert (Hk : (0 <= k <= 8)%Z).
  { split.
    - assert (H : (-1 < k)%Z) by (apply lt_IZR; lra). lia.
    - assert (H : (k < 9)%Z) by (apply lt_IZR; lra). lia. }
  rewrite (compass_sector b k Hk) by lra.
  assert (Hm : (0 <= k mod 8 < 8)%Z) by (apply Z.mod_pos_bound; lia).
  destruct (nth_error directions (Z.to_nat (k mod 8))) as [d |] eqn:Hd.
  - exists d. split; [reflexivity |]. eapply nth_error_In, Hd.
  - apply nth_error_None in Hd. cbn in Hd. lia.
Qed.

(** With a previous position the compass direction returned by
    [calculateLocationData] is never [undefined]: it is one of the eight
    names, whatever the coordinates. *)
Theorem calculateLocationData_compass_defined
    (prevLat prevLon : option R) (newLat newLon : R) (timeElapsed : option R) :
  exists d,
    compassDirection
      (calculateLocationData prevLat prevLon newLat newLon timeElapsed) = Some d
    /\ In d directions.
Proof.
  destruct prevLat as [lat1 |], prevLon as [lon1 |];
    cbn [calculateLocationData compassDirection];
    try (exists "N"%string; split; [reflexivity | now left]).
  apply getCompassDirection_total, calculateBearing_range.
Qed.

(** ** Distance *)

Lemma Math_atan2_right_half (y x : R) :
  0 <= x -> - (PI / 2) <= Math_atan2 y x <= PI / 2.
Proof.
  intros Hx. pose proof PI_RGT_0 as Hpi. unfold Math_atan2.
  destruct (Rlt_dec 0 x).
  - pose proof (atan_bound (y / x)). lra.
  - destruct (Rlt_dec x 0); [lra |].
    destruct (Rlt_dec 0 y); [lra |].
    destruct (Rlt_dec y 0); lra.
Qed.



(** ** Speed *)

Lemma Math_round_mono (x y : R) : x <= y -> Math_round x <= Math_round y.
Proof.
  intros Hxy. unfold Math_round, round_to_Z. apply IZR_le.
  destruct (Int_part_bounds (x + / 2)) as [Hx _].
  destruct (Int_part_bounds (y + / 2)) as [_ Hy].
  assert (H : (Int_part (x + / 2) < Int_part (y + / 2) + 1)%Z).
  { apply lt_IZR. rewrite plus_IZR. lra. }
  lia.
Qed.

(** ** Bearings along a meridian *)

Lemma Math_atan2_0_nonneg (x : R) : 0 <= x -> Math_atan2 0 x = 0.
Proof.
  intros Hx. unfold Math_atan2.
  destruct (Rlt_dec 0 x).
  - replace (0 / x) with 0 by (field; lra). apply atan_0.
  - destruct (Rlt_dec x 0); [lra |].
    destruct (Rlt_dec 0 0); [lra |].
    destruct (Rlt_dec 0 0); [lra | reflexivity].
Qed.

Lemma Math_atan2_0_neg (x : R) : x < 0 -> Math_atan2 0 x = PI.
Proof.
  intros Hx. unfold Math_atan2.
  destruct (Rlt_dec 0 x); [lra |].
  destruct (Rlt_dec x 0); [| lra].
  destruct (Rle_dec 0 0); [| lra].
  replace (0 / x) with 0 by (field; lra). rewrite atan_0. ring.
Qed.

Lemma meridian_atan2_args (lat1 lat2 lon : R) :
  let dLon := toRadians (lon - lon) in
  sin dLon * cos (toRadians lat2) = 0 /\
  cos (toRadians lat1) * sin (toRadians lat2) -
    sin (toRadians lat1) * cos (toRadians lat2) * cos dLon
  = sin (toRadians (lat2 - lat1)).
Proof.
  intros dLon.
  assert (Hd : dLon = 0) by (unfold dLon, toRadians; ring).
  rewrite Hd, sin_0, cos_0. split; [ring |].
  replace (toRadians (lat2 - lat1)) with (toRadians lat2 - toRadians lat1)
    by (unfold toRadians; ring).
  rewrite sin_minus. ring.
Qed.

(** Between two valid positions on the same meridian whose latitudes
    differ by at least a millionth of a degree, and by no more than 180
    degrees less a millionth, the bearing is exactly 0 (N) when the second
    lies further north and exactly 180 (S) when it lies further south.  (The
    margin keeps the two latitudes, and the two poles, apart on doubles
    too.) *)
Theorem calculateBearing_meridian (lat1 lat2 lon : R) :
  -90 <= lat1 <= 90 -> -90 <= lat2 <= 90 ->
  (0.000001 <= lat2 - lat1 <= 179.999999 ->
     calculateBearing lat1 lon lat2 lon = 0 /\
     getCompassDirection (calculateBearing lat1 lon lat2 lon)
       = Some "N"%string) /\
  (0.000001 <= lat1 - lat2 <= 179.999999 ->
     calculateBearing lat1 lon lat2 lon = 180 /\
     getCompassDirection (calculateBearing lat1 lon lat2 lon)
       = Some "S"%string).
Proof.
  intros H1 H2. pose proof PI_RGT_0 as Hpi.
  destruct (meridian_atan2_args lat1 lat2 lon) as [Hy Hx].
  split.
  - intros Hsep. assert (Hlt : lat1 < lat2) by lra.
    assert (Hb : calculateBearing lat1 lon lat2 lon = 0).
    { unfold calculateBearing. rewrite Hy, Hx.
      rewrite Math_atan2_0_nonneg.
      - unfold toDegrees. replace (0 * (180 / PI) + 360) with 360 by ring.
        rewrite (js_rem_eq 360 360 1); lra.
      - apply sin_ge_0; unfold toRadians; nra. }
    rewrite Hb. split; [reflexivity |].
    apply (compass_sector 0 0); [lia | lra].
  - intros Hsep.
    assert (Hlt : lat2 < lat1) by lra. assert (Hpole : lat1 - lat2 < 180) by lra.
    assert (Hb : calculateBearing lat1 lon lat2 lon = 180).
    { unfold calculateBearing. rewrite Hy, Hx.
      rewrite Math_atan2_0_neg.
      - unfold toDegrees. replace (PI * (180 / PI) + 360) with 540
          by (field; lra).
        rewrite (js_rem_eq 540 360 1); lra.
      - apply sin_lt_0_var; unfold toRadians; nra. }
    rewrite Hb. split; [reflexivity |].
    apply (compass_sector 180 4); [lia | lra].
Qed.

Lemma calculateBearing_meridian_witness :
  calculateBearing 40 (-74) 40.001 (-74) = 0 /\
  calculateBearing 40.001 (-74) 40 (-74) = 180.
Proof.
  split.
  - apply (proj1 (calculateBearing_meridian 40 40.001 (-74)
                    ltac:(lra) ltac:(lra))). lra.
  - apply (proj2 (calculateBearing_meridian 40.001 40 (-74)
                    ltac:(lra) ltac:(lra))). lra.
Defined.

(** ** Bounding boxes *)

Lemma Math_min_le_first (xs : list R) (x : R) : Math_min x xs <= x.
Proof.
  unfold Math_min. revert x.
  induction xs as [| a xs IH]; intros x; cbn [fold_left]; [lra |].
  specialize (IH (Rmin x a)). unfold Rmin in *.
  destruct (Rle_dec x a); lra.
Qed.

Lemma Math_min_le_elem (xs : list R) (x y : R) :
  In y xs -> Math_min x xs <= y.
Proof.
  unfold Math_min. revert x.
  induction xs as [| a xs IH]; intros x Hin; [destruct Hin |].
  cbn [fold_left]. destruct Hin as [-> | Hin]; [| now apply IH].
  pose proof (Math_min_le_first xs (Rmin x y)) as H. unfold Math_min in H.
  unfold Rmin in *. destruct (Rle_dec x y); lra.
Qed.

Lemma Math_min_attained (xs : list R) (x : R) :
  Math_min x xs = x \/ In (Math_min x xs) xs.
Proof.
  unfold Math_min. revert x.
  induction xs as [| a xs IH]; intros x; cbn [fold_left]; [now left |].
  destruct (IH (Rmin x a)) as [H | H]; [| right; now right].
  rewrite H. unfold Rmin. destruct (Rle_dec x a); [now left | right; now left].
Qed.

Lemma Math_max_ge_first (xs : list R) (x : R) : x <= Math_max x xs.
Proof.
  unfold Math_max. revert x.
  induction xs as [| a xs IH]; intros x; cbn [fold_left]; [lra |].
  specialize (IH (Rmax x a)). unfold Rmax in *.
  destruct (Rle_dec x a); lra.
Qed.

Lemma Math_max_ge_elem (xs : list R) (x y : R) :
  In y xs -> y <= Math_max x xs.
Proof.
  unfold Math_max. revert x.
  induction xs as [| a xs IH]; intros x Hin; [destruct Hin |].
  cbn [fold_left]. destruct Hin as [-> | Hin]; [| now apply IH].
  pose proof (Math_max_ge_first xs (Rmax x y)) as H. unfold Math_max in H.
  unfold Rmax in *. destruct (Rle_dec x y); lra.
Qed.

Lemma Math_max_attained (xs : list R) (x : R) :
  Math_max x xs = x \/ In (Math_max x xs) xs.
Proof.
  unfold Math_max. revert x.
  induction xs as [| a xs IH]; intros x; cbn [fold_left]; [now left |].
  destruct (IH (Rmax x a)) as [H | H]; [| right; now right].
  rewrite H. unfold Rmax. destruct (Rle_dec x a); [right; now left | now left].
Qed.

Lemma bounding_box_tight (coordinates : list Coordinate) :
  let b := calculateBoundingBox coordinates in
  (forall c, In c coordinates -> inside c b) /\
  (coordinates <> [] ->
     (exists c, In c coordinates /\ lat c = minLat b) /\
     (exists c, In c coordinates /\ lat c = maxLat b) /\
     (exists c, In c coordinates /\ lon c = minLon b) /\
     (exists c, In c coordinates /\ lon c = maxLon b)).
Proof.
  destruct coordinates as [| c0 cs]; cbn zeta.
  - split; [intros c [] | intros H; now destruct H].
  - cbn [calculateBoundingBox]. split.
    + intros c [<- | Hin]; unfold inside; cbn [minLat maxLat minLon maxLon].
      * repeat split; auto using Math_min_le_first, Math_max_ge_first.
      * repeat split;
          auto using Math_min_le_elem, Math_max_ge_elem, in_map.
    + intros _. cbn [minLat maxLat minLon maxLon].
      assert (Hpick : forall (f : Coordinate -> R) (v : R),
                 v = f c0 \/ In v (map f cs) ->
                 exists c, In c (c0 :: cs) /\ f c = v).
      { intros f v [-> | Hin]; [exists c0; split; [now left | reflexivity] |].
        apply in_map_iff in Hin. destruct Hin as (c & Hc & Hin).
        exists c. split; [now right | exact Hc]. }
      repeat split; apply Hpick;
        auto using Math_min_attained, Math_max_attained.
Qed.

(** Padding by a factor that is not negative (the default 0.1 included)
    keeps every coordinate of the list inside the padded box; padding leaves
    the centre of a box where it was and multiplies both side lengths by
    [1 + 2 * paddingFactor]. *)
Theorem padBoundingBox_contains
    (coordinates : list Coordinate) (paddingFactor : option R) :
  (forall f, paddingFactor = Some f -> 0 <= f) ->
  let b := calculateBoundingBox coordinates in
  let p := padBoundingBox b paddingFactor in
  let f := match paddingFactor with Some f => f | None => 0.1 end in
  (forall c, In c coordinates -> inside c p) /\
  minLat p + maxLat p = minLat b + maxLat b /\
  minLon p + maxLon p = minLon b + maxLon b /\
  maxLat p - minLat p = (1 + 2 * f) * (maxLat b - minLat b) /\
  maxLon p - minLon p = (1 + 2 * f) * (maxLon b - minLon b).
Proof.
  intros Hf b p f.
  assert (Hf0 : 0 <= f).
  { unfold f. destruct paddingFactor as [f0 |]; [now apply Hf | lra]. }
  split; [| unfold p, padBoundingBox; fold f;
            cbn [minLat maxLat minLon maxLon]; repeat split; ring].
  intros c Hin.
  destruct (bounding_box_tight coordinates) as [Hb _].
  destruct (Hb c Hin) as [[H1 H2] [H3 H4]]. fold b in H1, H2, H3, H4.
  unfold inside, p, padBoundingBox. fold f.
  cbn [minLat maxLat minLon maxLon]. repeat split; nra.
Qed.

Lemma padBoundingBox_contains_witness :
  inside {| lat := 1; lon := 5 |}
    (padBoundingBox
       (calculateBoundingBox
          [{| lat := 1; lon := 5 |}; {| lat := 3; lon := 2 |}])
       (Some 0.5)).
Proof.
  apply (padBoundingBox_contains
           [{| lat := 1; lon := 5 |}; {| lat := 3; lon := 2 |}] (Some 0.5)).
  - intros f [= <-]. lra.
  - now left.
Defined.

(** The bounding box contains every coordinate of the list, and it is the
    smallest such box: each of its four sides passes through a coordinate of
    the list. *)
Theorem calculateBoundingBox_tight (coordinates : list Coordinate) :
  let b := calculateBoundingBox coordinates in
  (forall c, In c coordinates -> inside c b) /\
  (coordinates <> [] ->
     (exists c, In c coordinates /\ lat c = minLat b) /\
     (exists c, In c coordinates /\ lat c = maxLat b) /\
     (exists c, In c coordinates /\ lon c = minLon b) /\
     (exists c, In c coordinates /\ lon c = maxLon b)).
Proof. exact (bounding_box_tight coordinates). Qed.

Lemma calculateBoundingBox_tight_witness :
  let cs := [{| lat := 1; lon := 5 |}; {| lat := 3; lon := 2 |}] in
  inside {| lat := 3; lon := 2 |} (calculateBoundingBox cs) /\
  exists c, In c cs /\ lat c = minLat (calculateBoundingBox cs).
Proof.
  intros cs. split.
  - apply (proj1 (calculateBoundingBox_tight cs)). right. now left.
  - apply (proj2 (calculateBoundingBox_tight cs)). discriminate.
Defined.

(** ** Centre points *)

Lemma toDegrees_toRadians (d : R) : toDegrees (toRadians d) = d.
Proof. unfold toDegrees, toRadians. field. apply PI_neq0. Qed.

Lemma toDegrees_le (a b : R) : a <= b -> toDegrees a <= toDegrees b.
Proof.
  intros H. unfold toDegrees. apply Rmult_le_compat_r; [| exact H].
  pose proof PI_RGT_0. left. apply Rdiv_lt_0_compat; lra.
Qed.

Lemma toDegrees_lt (a b : R) : a < b -> toDegrees a < toDegrees b.
Proof.
  intros H. unfold toDegrees. apply Rmult_lt_compat_r; [| exact H].
  pose proof PI_RGT_0. apply Rdiv_lt_0_compat; lra.
Qed.

Lemma toDegrees_PI : toDegrees PI = 180.
Proof. unfold toDegrees. field. apply PI_neq0. Qed.

Lemma toDegrees_PI2 : toDegrees (PI / 2) = 90.
Proof. unfold toDegrees. field. apply PI_neq0. Qed.

Lemma toDegrees_opp (a : R) : toDegrees (- a) = - toDegrees a.
Proof. unfold toDegrees. ring. Qed.

(** The centre of two or more coordinates is a valid position (latitude
    in [-90, 90], longitude in [-180, 180]), whatever the coordinates. *)
Theorem calculateCenterPoint_valid (coordinates : list Coordinate) :
  (2 <= length coordinates)%nat ->
  let c := calculateCenterPoint coordinates in
  -90 <= lat c <= 90 /\ -180 <= lon c <= 180 /\
  isValidCoordinates (lat c) (lon c).
Proof.
  intros Hlen c.
  assert (H : -90 <= lat c <= 90 /\ -180 <= lon c <= 180).
  { unfold c.
    destruct coordinates as [| c1 [| c2 cs]]; cbn [length] in Hlen; try lia.
    unfold calculateCenterPoint.
    destruct (fold_left add_unit_vector (c1 :: c2 :: cs) (0, 0, 0))
      as [[x y] z].
    cbn [lat lon].
    match goal with |- context [Math_atan2 ?a (sqrt ?h)] =>
      pose proof (Math_atan2_right_half a (sqrt h) (sqrt_pos h)) as [Hlo Hhi]
    end.
    match goal with |- context [toDegrees (Math_atan2 (y / ?n) (x / ?n))] =>
      pose proof (Math_atan2_range (y / n) (x / n)) as [Hlo' Hhi']
    end.
    apply toDegrees_le in Hlo, Hhi, Hhi'. apply toDegrees_lt in Hlo'.
    rewrite toDegrees_opp, toDegrees_PI2 in Hlo.
    rewrite toDegrees_PI2 in Hhi. rewrite toDegrees_opp, toDegrees_PI in Hlo'.
    rewrite toDegrees_PI in Hhi'. lra. }
  split; [apply H |]. split; [apply H |].
  unfold isValidCoordinates. lra.
Qed.

Lemma calculateCenterPoint_valid_witness :
  let c := calculateCenterPoint
             [{| lat := 500; lon := 5 |}; {| lat := 3; lon := -700 |}] in
  isValidCoordinates (lat c) (lon c).
Proof.
  intros c.
  apply (calculateCenterPoint_valid
           [{| lat := 500; lon := 5 |}; {| lat := 3; lon := -700 |}]).
  cbn. lia.
Defined.

(** [Math.atan2] recovers the angle of a point given in polar form. *)
Lemma Math_atan2_polar (r t : R) :
  0 < r -> - PI < t <= PI -> Math_atan2 (r * sin t) (r * cos t) = t.
Proof.
  intros Hr Ht. pose proof PI_RGT_0 as Hpi. unfold Math_atan2.
  assert (Hq : forall u, cos u <> 0 -> r * sin u / (r * cos u) = tan u).
  { intros u Hu. unfold tan. field. split; lra. }
  destruct (Rlt_dec t (- (PI / 2))) as [Hlow | Hlow].
  - (* third quadrant *)
    set (u := t + PI).
    assert (Hs : sin t = - sin u) by (unfold u; rewrite neg_sin; ring).
    assert (Hc : cos t = - cos u) by (unfold u; rewrite neg_cos; ring).
    assert (Hcu : 0 < cos u) by (apply cos_gt_0; unfold u; lra).
    assert (Hsu : 0 < sin u) by (apply sin_gt_0; unfold u; lra).
    rewrite Hs, Hc.
    destruct (Rlt_dec 0 (r * - cos u)); [nra |].
    destruct (Rlt_dec (r * - cos u) 0); [| nra].
    destruct (Rle_dec 0 (r * - sin u)); [nra |].
    replace (r * - sin u / (r * - cos u)) with (tan u)
      by (unfold tan; field; split; lra).
    rewrite atan_tan by (unfold u; lra). unfold u. ring.
  - destruct (Req_dec_T t (- (PI / 2))) as [Heq | Hne].
    + subst t. rewrite sin_neg, cos_neg, sin_PI2, cos_PI2.
      replace (r * 0) with 0 by ring.
      repeat match goal with
             | |- context [Rlt_dec ?a ?b] => destruct (Rlt_dec a b)
             end; try reflexivity; lra.
    + destruct (Rlt_dec t (PI / 2)) as [Hmid | Hmid].
      * (* right half plane *)
        assert (Hct : 0 < cos t) by (apply cos_gt_0; lra).
        destruct (Rlt_dec 0 (r * cos t)); [| nra].
        rewrite Hq by lra. apply atan_tan. lra.
      * destruct (Req_dec_T t (PI / 2)) as [Heq | Hne'].
        -- subst t. rewrite sin_PI2, cos_PI2.
           replace (r * 0) with 0 by ring.
           repeat match goal with
                  | |- context [Rlt_dec ?a ?b] => destruct (Rlt_dec a b)
                  end; try reflexivity; lra.
        -- (* second quadrant *)
           set (u := t - PI).
           assert (Hs : sin t = - sin u).
           { replace t with (u + PI) by (unfold u; ring).
             rewrite neg_sin. unfold u. ring_simplify (t - PI + PI - PI).
             reflexivity. }
           assert (Hc : cos t = - cos u).
           { replace t with (u + PI) by (unfold u; ring).
             rewrite neg_cos. unfold u. ring_simplify (t - PI + PI - PI).
             reflexivity. }
           assert (Hcu : 0 < cos u) by (apply cos_gt_0; unfold u; lra).
           assert (Hsu : sin u <= 0).
           { destruct (Req_dec_T u 0) as [-> | Hu0]; [rewrite sin_0; lra |].
             left. apply sin_lt_0_var; unfold u in *; lra. }
           rewrite Hs, Hc.
           destruct (Rlt_dec 0 (r * - cos u)); [nra |].
           destruct (Rlt_dec (r * - cos u) 0); [| nra].
           destruct (Rle_dec 0 (r * - sin u)); [| nra].
           replace (r * - sin u / (r * - cos u)) with (tan u)
             by (unfold tan; field; split; lra).
           rewrite atan_tan by (unfold u; lra). unfold u. ring.
Qed.

Lemma fold_add_unit_vector_repeat (c : Coordinate) (n : nat) (x y z : R) :
  fold_left add_unit_vector (repeat c n) (x, y, z) =
    (x + INR n * (cos (toRadians (lat c)) * cos (toRadians (lon c))),
     y + INR n * (cos (toRadians (lat c)) * sin (toRadians (lon c))),
     z + INR n * sin (toRadians (lat c))).
Proof.
  revert x y z. induction n as [| n IH]; intros x y z.
  - cbn. f_equal; [f_equal |]; ring.
  - cbn [repeat fold_left add_unit_vector]. rewrite IH, S_INR.
    f_equal; [f_equal |]; ring.
Qed.

(** The centre of any number of copies of one position is that position,
    for every valid position other than the poles (longitude -180
    excepted). *)
Theorem calculateCenterPoint_same_position (c : Coordinate) (n : nat) :
  (1 <= n)%nat ->
  -90 < lat c < 90 -> -180 < lon c <= 180 ->
  calculateCenterPoint (repeat c n) = c.
Proof.
  intros Hn Hlat Hlon. pose proof PI_RGT_0 as Hpi.
  destruct n as [| [| n]]; [lia | now destruct c |].
  set (m := S (S n)).
  assert (Hm : 0 < INR m) by (apply lt_0_INR; unfold m; lia).
  change (repeat c m) with (c :: c :: repeat c n).
  unfold calculateCenterPoint.
  change (c :: c :: repeat c n) with (repeat c m).
  rewrite fold_add_unit_vector_repeat, repeat_length.
  set (p := toRadians (lat c)). set (l := toRadians (lon c)).
  assert (Hp : - (PI / 2) < p < PI / 2) by (unfold p, toRadians; nra).
  assert (Hl : - PI < l <= PI) by (unfold l, toRadians; nra).
  assert (Hcp : 0 < cos p) by (apply cos_gt_0; lra).
  replace ((0 + INR m * (cos p * cos l)) / INR m) with (cos p * cos l)
    by (field; lra).
  replace ((0 + INR m * (cos p * sin l)) / INR m) with (cos p * sin l)
    by (field; lra).
  replace ((0 + INR m * sin p) / INR m) with (sin p) by (field; lra).
  rewrite (Math_atan2_polar (cos p) l Hcp Hl).
  replace (cos p * cos l * (cos p * cos l) + cos p * sin l * (cos p * sin l))
    with (cos p * cos p).
  2: { pose proof (sin2_cos2 l) as H. unfold Rsqr in H.
       replace (cos p * cos l * (cos p * cos l) +
                cos p * sin l * (cos p * sin l))
         with (cos p * cos p * (sin l * sin l + cos l * cos l)) by ring.
       rewrite H. ring. }
  rewrite sqrt_square by lra.
  assert (Hpolar : Math_atan2 (sin p) (cos p) = p).
  { pose proof (Math_atan2_polar 1 p) as H. rewrite !Rmult_1_l in H.
    apply H; lra. }
  rewrite Hpolar.
  unfold p, l. rewrite !toDegrees_toRadians. now destruct c.
Qed.

Lemma calculateCenterPoint_same_position_witness :
  calculateCenterPoint (repeat {| lat := 40; lon := -74 |} 3)
  = {| lat := 40; lon := -74 |}.
Proof.
  apply (calculateCenterPoint_same_position {| lat := 40; lon := -74 |} 3);
    cbn [lat lon]; [lia | lra | lra].
Defined.

End CalculatorMore.

(* ===================================================================== *)
(** * The distance on doubles *)
(* ===================================================================== *)

Module Binary64Facts.

Import PrimFloat Binary64.
Local Open Scope float_scope.

(** What [calculateDistance (-82) (-180) 82 0] passes to [Math.sin] (twice
    each) and to [Math.cos]. *)
Lemma calculateDistance_arguments :
  toRadians (82 - -82) / 2 = 0x1.6e6127ff9d971p+0 /\
  toRadians (0 - -180) / 2 = 0x1.921fb54442d18p+0 /\
  toRadians (-82) = -0x1.6e6127ff9d971p+0 /\
  toRadians 82 = 0x1.6e6127ff9d971p+0.
Proof. repeat split; vm_compute; reflexivity. Qed.

(** C8 fails on the code at the valid coordinates (-82, -180) and (82, 0),
    almost antipodal.  With a [Math.sin] and a [Math.cos] that return the
    doubles nearest to the exact sine and cosine, the haversine term [a] is
    the double next above 1, [Math.sqrt (1 - a)] is NaN, and with it the
    distance that [calculateDistance] returns: no number of kilometres, and
    neither below 0 nor at least 0. *)
Theorem C8_distance_not_a_number
    (Math_sin Math_cos : float -> float) (Math_atan2 : float -> float -> float) :
  Math_sin 0x1.6e6127ff9d971p+0 = 0x1.fb046a930947ap-1 ->
  Math_sin 0x1.921fb54442d18p+0 = 1 ->
  Math_cos (-0x1.6e6127ff9d971p+0) = 0x1.1d06c968d9e1ap-3 ->
  Math_cos 0x1.6e6127ff9d971p+0 = 0x1.1d06c968d9e1ap-3 ->
  (forall y, Math_atan2 y nan = nan) ->
  let a := haversine_a Math_sin Math_cos (-82) (-180) 82 0 in
  let d := calculateDistance Math_sin Math_cos Math_atan2 (-82) (-180) 82 0 in
  Calculator.isValidCoordinates (-82) (-180) /\
  Calculator.isValidCoordinates 82 0 /\
  a = 0x1.0000000000001p+0 /\ (1 <? a) = true /\
  is_nan (sqrt (1 - a)) = true /\
  is_nan d = true /\ (0 <=? d) = false /\ (d <? 0) = false.
Proof.
  intros Hs Hs1 Hc1 Hc2 Hnan a d.
  assert (Ha : a = 0x1.0000000000001p+0).
  { unfold a, haversine_a.
    destruct calculateDistance_arguments as (-> & -> & -> & ->).
    rewrite Hs, Hs1, Hc1, Hc2. vm_compute. reflexivity. }
  assert (Hd : d = nan).
  { unfold d, calculateDistance. fold a. rewrite Ha.
    replace (sqrt (1 - 0x1.0000000000001p+0)) with nan
      by (vm_compute; reflexivity).
    rewrite Hnan. vm_compute. reflexivity. }
  split; [unfold Calculator.isValidCoordinates; lra |].
  split; [unfold Calculator.isValidCoordinates; lra |].
  rewrite Ha, Hd. repeat split; vm_compute; reflexivity.
Qed.

Lemma C8_distance_not_a_number_witness :
  is_nan (calculateDistance sample_sin sample_cos sample_atan2
            (-82) (-180) 82 0) = true.
Proof.
  apply (C8_distance_not_a_number sample_sin sample_cos sample_atan2);
    reflexivity.
Defined.

(** The quotient of [calculateSpeed] overflows for an elapsed time far
    below a millisecond: [hours] underflows to 0, and the speed is Infinity,
    or NaN when the distance is 0. *)
Lemma speedKmh_overflow :
  speedKmh 1 0x1p-1074 = infinity /\ is_nan (speedKmh 0 0x1p-1074) = true.
Proof. split; vm_compute; reflexivity. Qed.

End Binary64Facts.

(* ===================================================================== *)
(** * Properties of the calculator on numbers that may be NaN *)
(* ===================================================================== *)

Module NaNFacts.

Import Calculator CalculatorFacts CalculatorMore CalculatorNaN.
Local Open Scope R_scope.

Lemma number_div_Num (r k : R) :
  k <> 0 -> number_div (Num r) k = Num (r / k).
Proof.
  intros Hk. unfold number_div.
  destruct (Req_dec_T k 0); [contradiction | reflexivity].
Qed.

Lemma calculateSpeed_Num (d t : R) :
  t <> 0 ->
  calculateSpeed (Num d) t =
    {| kmh := Num (Math_round (d / (t / 3600000) * 10) / 10);
       mph := Num (Math_round (d / (t / 3600000) * 0.621371 * 10) / 10) |}.
Proof.
  intros Ht. unfold calculateSpeed.
  destruct (Req_dec_T t 0) as [E | _]; [contradiction |].
  replace (1000 * 60 * 60) with 3600000 by ring.
  rewrite (number_div_Num d) by lra. cbn [number_mul number_round].
  rewrite !number_div_Num by lra. reflexivity.
Qed.

Lemma calculateSpeed_NaN (t : R) :
  t <> 0 -> calculateSpeed NaN t = {| kmh := NaN; mph := NaN |}.
Proof.
  intros Ht. unfold calculateSpeed.
  destruct (Req_dec_T t 0) as [E | _]; [contradiction | reflexivity].
Qed.

(** With a [calculateDistance] that returns the number of exact arithmetic,
    [calculateLocationData] returns the result of
    [Calculator.calculateLocationData]. *)
Lemma calculateLocationData_exact
    (prevLat prevLon : option R) (newLat newLon : R) (timeElapsed : option R) :
  calculateLocationData
    (fun lat1 lon1 lat2 lon2 => Num (calculateDistance lat1 lon1 lat2 lon2))
    calculateBearing prevLat prevLon newLat newLon timeElapsed =
  of_exact
    (Calculator.calculateLocationData prevLat prevLon newLat newLon timeElapsed).
Proof.
  unfold of_exact.
  destruct prevLat as [lat1 |], prevLon as [lon1 |]; try reflexivity.
  cbn [calculateLocationData Calculator.calculateLocationData
       Calculator.distanceKm Calculator.distanceMiles Calculator.speed
       Calculator.bearing Calculator.compassDirection Calculator.motionState
       number_mul number_round].
  rewrite !number_div_Num by lra.
  set (d := calculateDistance lat1 lon1 newLat newLon).
  assert (Hs :
    match timeElapsed with
    | Some t =>
        if Rlt_dec 0 t then calculateSpeed (Num d) t
        else {| kmh := Num 0; mph := Num 0 |}
    | None => {| kmh := Num 0; mph := Num 0 |}
    end =
    {| kmh := Num (Calculator.kmh (elapsed_speed d timeElapsed));
       mph := Num (Calculator.mph (elapsed_speed d timeElapsed)) |}).
  { unfold elapsed_speed. destruct timeElapsed as [t |]; [| reflexivity].
    destruct (Rlt_dec 0 t) as [Ht | _]; [| reflexivity].
    rewrite calculateSpeed_Num, calculateSpeed_pos by lra. reflexivity. }
  rewrite Hs. reflexivity.
Qed.

(** The local [speed] of [calculateLocationData] for a distance that is a
    number. *)
Lemma speed_of_number
    (calculateDistance : R -> R -> R -> R -> number)
    (calculateBearing : R -> R -> R -> R -> R)
    (prevLat prevLon newLat newLon d : R) (timeElapsed : option R) :
  calculateDistance prevLat prevLon newLat newLon = Num d ->
  speed (calculateLocationData calculateDistance calculateBearing
           (Some prevLat) (Some prevLon) newLat newLon timeElapsed) =
    {| kmh := Num (Calculator.kmh (elapsed_speed d timeElapsed));
       mph := Num (Calculator.mph (elapsed_speed d timeElapsed)) |}.
Proof.
  intros Hd. cbn [calculateLocationData speed]. rewrite Hd.
  unfold elapsed_speed. destruct timeElapsed as [t |]; [| reflexivity].
  destruct (Rlt_dec 0 t) as [Ht | _]; [| reflexivity].
  rewrite calculateSpeed_Num, calculateSpeed_pos by lra. reflexivity.
Qed.

(** C10, amended: with a previous position, a distance that is a number
    and an elapsed time that is absent, not positive, or at least one
    millisecond, [calculateLocationData] returns the distance in kilometres
    and in miles rounded to two decimals (integer multiples of 0.01, within
    0.005 of the computed values), the speed in km/h and in mph rounded to
    one decimal (integer multiples of 0.1, within 0.05 of the computed
    values), and the motion state of the rounded km/h speed, not of the exact
    quotient; the bearing is the value of [calculateBearing], not rounded.
    (The bound on the elapsed time is there for the doubles, on which the
    quotient can overflow below a millisecond,
    [Binary64Facts.speedKmh_overflow]; the proof, on reals, has no use for
    it.) *)
Theorem C10_rounded_outputs
    (calculateDistance : R -> R -> R -> R -> number)
    (calculateBearing : R -> R -> R -> R -> R)
    (prevLat prevLon newLat newLon d : R) (timeElapsed : option R) :
  calculateDistance prevLat prevLon newLat newLon = Num d ->
  (forall t, timeElapsed = Some t -> t <= 0 \/ 1 <= t) ->
  let r := calculateLocationData calculateDistance calculateBearing
             (Some prevLat) (Some prevLon) newLat newLon timeElapsed in
  exists km mi k m : R,
    distanceKm r = Num km /\
    distanceMiles r = Num mi /\
    speed r = {| kmh := Num k; mph := Num m |} /\
    km = Math_round (d * 100) / 100 /\
    mi = Math_round (d * 0.621371 * 100) / 100 /\
    (exists z : Z, km = IZR z / 100) /\
    (exists z : Z, mi = IZR z / 100) /\
    d - 0.005 < km <= d + 0.005 /\
    d * 0.621371 - 0.005 < mi <= d * 0.621371 + 0.005 /\
    (exists z : Z, k = IZR z / 10) /\
    (exists z : Z, m = IZR z / 10) /\
    (forall t, timeElapsed = Some t -> 1 <= t ->
       let v := d / (t / 3600000) in
       k = Math_round (v * 10) / 10 /\
       m = Math_round (v * 0.621371 * 10) / 10 /\
       v - 0.05 < k <= v + 0.05 /\
       v * 0.621371 - 0.05 < m <= v * 0.621371 + 0.05 /\
       motionState r =
         determineMotionState (Some (Num (Math_round (v * 10) / 10)))) /\
    ((forall t, timeElapsed = Some t -> t <= 0) -> k = 0 /\ m = 0) /\
    motionState r = determineMotionState (Some (Num k)) /\
    bearing r = calculateBearing prevLat prevLon newLat newLon.
Proof.
  intros Hd _ r.
  pose proof (speed_of_number calculateDistance calculateBearing
                prevLat prevLon newLat newLon d timeElapsed Hd) as Hs.
  fold r in Hs.
  exists (Math_round (d * 100) / 100), (Math_round (d * 0.621371 * 100) / 100),
    (Calculator.kmh (elapsed_speed d timeElapsed)),
    (Calculator.mph (elapsed_speed d timeElapsed)).
  assert (Hm : motionState r =
               determineMotionState
                 (Some (Num (Calculator.kmh (elapsed_speed d timeElapsed))))).
  { change (motionState r) with (determineMotionState (Some (kmh (speed r)))).
    rewrite Hs. reflexivity. }
  split.
  { unfold r. cbn [calculateLocationData distanceKm]. rewrite Hd.
    cbn [number_mul number_round]. apply number_div_Num. lra. }
  split.
  { unfold r. cbn [calculateLocationData distanceMiles]. rewrite Hd.
    cbn [number_mul number_round]. apply number_div_Num. lra. }
  split; [exact Hs |].
  split; [reflexivity |]. split; [reflexivity |].
  split; [unfold Math_round; eexists; reflexivity |].
  split; [unfold Math_round; eexists; reflexivity |].
  split; [apply Math_round_hundredths |].
  split; [apply Math_round_hundredths |].
  split; [apply elapsed_speed_tenths |].
  split; [apply elapsed_speed_tenths |].
  split; [| split; [| split; [exact Hm | reflexivity]]].
  - intros t -> Ht v. rewrite Hm.
    rewrite elapsed_speed_pos, calculateSpeed_pos by lra.
    cbn [Calculator.kmh Calculator.mph]. fold v.
    split; [reflexivity |]. split; [reflexivity |].
    split; [apply Math_round_tenths |]. split; [apply Math_round_tenths |].
    reflexivity.
  - intros Ht. rewrite (elapsed_speed_zero d timeElapsed Ht).
    split; reflexivity.
Qed.

Lemma C10_rounded_outputs_witness :
  let d := calculateDistance 40 (-74) 40.001 (-74) in
  let r := calculateLocationData
             (fun lat1 lon1 lat2 lon2 =>
                Num (calculateDistance lat1 lon1 lat2 lon2))
             calculateBearing (Some 40) (Some (-74)) 40.001 (-74)
             (Some 10000) in
  kmh (speed r) = Num (Math_round (d / (10000 / 3600000) * 10) / 10).
Proof.
  intros d r.
  destruct (C10_rounded_outputs
              (fun lat1 lon1 lat2 lon2 =>
                 Num (calculateDistance lat1 lon1 lat2 lon2))
              calculateBearing 40 (-74) 40.001 (-74) d (Some 10000) eq_refl)
    as (km & mi & k & m & _ & _ & Hs & _ & _ & _ & _ & _ & _ & _ & _ & H & _).
  - intros t E. injection E as <-. right. lra.
  - fold r in Hs. rewrite Hs. cbn [kmh].
    destruct (H 10000 eq_refl) as [Hk _]; [lra |]. rewrite Hk. reflexivity.
Defined.

(** When [calculateDistance] returns a number that is not negative (and
    the elapsed time is absent, not positive, or at least one millisecond),
    the speed that [calculateLocationData] returns is not negative, and its
    mph value does not exceed its km/h value.  When [calculateDistance]
    returns NaN, both distances are NaN, and after a positive elapsed time so
    are both speeds, with the motion state UNKNOWN although there is a
    previous position; without a positive elapsed time the speed is 0 and the
    motion state STATIONARY.  (The bound on the elapsed time is there for
    the doubles, as in C10.) *)
Theorem calculateLocationData_speed_bounds
    (calculateDistance : R -> R -> R -> R -> number)
    (calculateBearing : R -> R -> R -> R -> R)
    (prevLat prevLon newLat newLon : R) (timeElapsed : option R) :
  let r := calculateLocationData calculateDistance calculateBearing
             (Some prevLat) (Some prevLon) newLat newLon timeElapsed in
  (forall d,
     calculateDistance prevLat prevLon newLat newLon = Num d -> 0 <= d ->
     (forall t, timeElapsed = Some t -> t <= 0 \/ 1 <= t) ->
     exists k m : R,
       speed r = {| kmh := Num k; mph := Num m |} /\ 0 <= m <= k) /\
  (calculateDistance prevLat prevLon newLat newLon = NaN ->
     distanceKm r = NaN /\ distanceMiles r = NaN /\
     (forall t, timeElapsed = Some t -> 0 < t ->
        speed r = {| kmh := NaN; mph := NaN |} /\
        motionState r = "UNKNOWN"%string) /\
     ((forall t, timeElapsed = Some t -> t <= 0) ->
        speed r = {| kmh := Num 0; mph := Num 0 |} /\
        motionState r = "STATIONARY"%string)).
Proof.
  intros r. split.
  - intros d Hd Hpos _.
    pose proof (speed_of_number calculateDistance calculateBearing
                  prevLat prevLon newLat newLon d timeElapsed Hd) as Hs.
    fold r in Hs. eexists _, _. split; [exact Hs |].
    unfold elapsed_speed.
    destruct timeElapsed as [t |]; [| cbn; lra].
    destruct (Rlt_dec 0 t) as [Ht | _]; [| cbn; lra].
    rewrite calculateSpeed_pos by exact Ht.
    cbn [Calculator.kmh Calculator.mph].
    assert (Hv : 0 <= d / (t / 3600000)).
    { apply Rle_mult_inv_pos; [exact Hpos |]. lra. }
    set (v := d / (t / 3600000)) in *.
    pose proof (Math_round_nonneg (v * 0.621371 * 10)) as H0.
    pose proof (Math_round_mono (v * 0.621371 * 10) (v * 10)) as H1.
    split.
    + apply Rle_mult_inv_pos; [apply H0; nra | lra].
    + apply Rmult_le_compat_r; [lra | apply H1; nra].
  - intros Hd. unfold r.
    cbn [calculateLocationData distanceKm distanceMiles speed motionState].
    rewrite Hd. cbn [number_mul number_round number_div].
    split; [reflexivity |]. split; [reflexivity |]. split.
    + intros t -> Ht. destruct (Rlt_dec 0 t); [| contradiction].
      rewrite calculateSpeed_NaN by lra. split; reflexivity.
    + intros Ht. destruct timeElapsed as [t |].
      * specialize (Ht t eq_refl). destruct (Rlt_dec 0 t); [lra |].
        cbn [kmh]. rewrite determineMotionState_Num.
        destruct (Rlt_dec 0 2); [split; reflexivity | lra].
      * cbn [kmh]. rewrite determineMotionState_Num.
        destruct (Rlt_dec 0 2); [split; reflexivity | lra].
Qed.

Lemma calculateLocationData_speed_bounds_witness :
  let r := calculateLocationData (fun _ _ _ _ => NaN) calculateBearing
             (Some (-82)) (Some (-180)) 82 0 (Some 1000) in
  speed r = {| kmh := NaN; mph := NaN |} /\ motionState r = "UNKNOWN"%string.
Proof.
  intros r.
  destruct (calculateLocationData_speed_bounds (fun _ _ _ _ => NaN)
              calculateBearing (-82) (-180) 82 0 (Some 1000)) as [_ H].
  destruct (H eq_refl) as (_ & _ & Hs & _).
  apply (Hs 1000 eq_refl). lra.
Defined.

End NaNFacts.

(* ===================================================================== *)
(** * Properties of request authentication and of the location routes *)
(* ===================================================================== *)

Module ApiFacts.

Import Calculator LocationsRoute AuthMiddleware LocationsApi.
Local Open Scope string_scope.

(** ** Strings *)

Lemma prefix_string_drop (p s : string) :
  String.prefix p s = true → s = p +:+ string_drop (String.length p) s.
Proof.
  revert s. induction p as [| a p IH]; intros s; [reflexivity |].
  destruct s as [| b s]; cbn; [discriminate |].
  destruct (Ascii.ascii_dec a b) as [-> | Hne]; [| discriminate].
  intros H.
  change (String b s = String b (p +:+ string_drop (String.length p) s)).
  f_equal. now apply IH.
Qed.

Lemma prefix_append (p t : string) : String.prefix p (p +:+ t) = true.
Proof.
  induction p as [| a p IH]; [now destruct t |].
  change (String.prefix (String a p) (String a (p +:+ t)) = true).
  cbn [String.prefix].
  destruct (Ascii.ascii_dec a a); [exact IH | contradiction].
Qed.

Lemma string_drop_append (p t : string) :
  string_drop (String.length p) (p +:+ t) = t.
Proof. induction p as [| a p IH]; [reflexivity | exact IH]. Qed.

(** ** [authenticateRequest] *)

Section Authenticate.

Variable jwtVerify : string → option string.
Variable findUser : string → option AuthUser.

(** A request is authenticated exactly when its Authorization header is
    "Bearer " followed by a token that verifies and names a user who exists
    and is active; the user returned is that user. *)
Theorem authenticateRequest_success
    (authorization : option string) (user : AuthUser) :
  authenticateRequest jwtVerify findUser authorization = AuthSuccess user ↔
  ∃ token userId,
    authorization = Some ("Bearer " +:+ token) ∧
    jwtVerify token = Some userId ∧
    findUser userId = Some user ∧
    isActive user = true.
Proof.
  unfold authenticateRequest. split.
  - destruct authorization as [authHeader |]; [| discriminate].
    destruct (String.prefix "Bearer " authHeader) eqn:Hp; [| discriminate].
    cbn [negb]. apply prefix_string_drop in Hp.
    change (String.length "Bearer ") with 7 in Hp.
    set (token := string_drop 7 authHeader) in *.
    destruct (jwtVerify token) as [userId |] eqn:Hv; [| discriminate].
    destruct (findUser userId) as [u |] eqn:Hu; [| discriminate].
    destruct (isActive u) eqn:Ha; [| discriminate].
    intros [= <-]. exists token, userId. now rewrite Hp at 1.
  - intros (token & userId & -> & Hv & Hu & Ha).
    rewrite prefix_append. cbn [negb].
    change 7 with (String.length "Bearer ").
    rewrite string_drop_append, Hv, Hu, Ha. reflexivity.
Qed.

Lemma authenticateRequest_rejections
    (authorization : option string) (error : string) (statusCode : nat) :
  authenticateRequest jwtVerify findUser authorization =
    AuthFailure error statusCode →
  (statusCode = 401 ∨ statusCode = 403 ∨ statusCode = 404) ∧
  (statusCode = 403 ↔
     ∃ token userId user,
       authorization = Some ("Bearer " +:+ token) ∧
       jwtVerify token = Some userId ∧
       findUser userId = Some user ∧
       isActive user = false).
Proof.
  unfold authenticateRequest.
  destruct authorization as [authHeader |].
  2: { intros [= <- <-]. split; [now left |].
       split; [discriminate | now intros (? & ? & ? & [=] & _)]. }
  destruct (String.prefix "Bearer " authHeader) eqn:Hp; cbn [negb].
  2: { intros [= <- <-]. split; [now left |].
       split; [discriminate |].
       intros (token & ? & ? & [= ->] & _).
       now rewrite prefix_append in Hp. }
  apply prefix_string_drop in Hp.
  change (String.length "Bearer ") with 7 in Hp.
  set (token := string_drop 7 authHeader) in *.
  assert (Htok : ∀ token', authHeader = "Bearer " +:+ token' → token' = token).
  { intros token' ->. unfold token.
    change 7 with (String.length "Bearer "). now rewrite string_drop_append. }
  destruct (jwtVerify token) as [userId |] eqn:Hv.
  2: { intros [= <- <-]. split; [now left |].
       split; [discriminate |].
       intros (token' & ? & ? & [= H] & Hv' & _).
       apply Htok in H. subst token'. congruence. }
  destruct (findUser userId) as [u |] eqn:Hu.
  2: { intros [= <- <-]. split; [now right; right |].
       split; [discriminate |].
       intros (token' & uid & ? & [= H] & Hv' & Hu' & _).
       apply Htok in H. subst token'. congruence. }
  destruct (isActive u) eqn:Ha; [discriminate |].
  intros [= <- <-]. split; [now right; left |].
  split; [| reflexivity]. intros _. exists token, userId, u.
  now rewrite Hp at 1.
Qed.

(** Every rejection carries one of the statuses 401, 403 and 404, and 403
    is the answer exactly for a verified token of an existing, deactivated
    user. *)
Theorem authenticateRequest_failure
    (authorization : option string) (error : string) (statusCode : nat) :
  authenticateRequest jwtVerify findUser authorization =
    AuthFailure error statusCode →
  (statusCode = 401 ∨ statusCode = 403 ∨ statusCode = 404) ∧
  (statusCode = 403 ↔
     ∃ token userId user,
       authorization = Some ("Bearer " +:+ token) ∧
       jwtVerify token = Some userId ∧
       findUser userId = Some user ∧
       isActive user = false).
Proof.
  exact (authenticateRequest_rejections authorization error statusCode).
Qed.

End Authenticate.

Lemma authenticateRequest_failure_witness :
  ∃ token userId user,
    Some "Bearer good" = Some ("Bearer " +:+ token) ∧
    sample_jwtVerify token = Some userId ∧
    sample_findUser userId = Some user ∧
    isActive user = false.
Proof.
  apply (proj1 (proj2 (authenticateRequest_failure
                         sample_jwtVerify sample_findUser
                         (Some "Bearer good") "Account is deactivated" 403
                         eq_refl))).
  reflexivity.
Defined.

Lemma authenticateRequest_success_witness :
  authenticateRequest sample_jwtVerify
    (λ _, Some {| id := "u1"; email := "alice@example.com"; name := None;
                  role := USER; isActive := true |})
    (Some "Bearer good")
  = AuthSuccess {| id := "u1"; email := "alice@example.com"; name := None;
                   role := USER; isActive := true |}.
Proof.
  apply (proj2 (authenticateRequest_success sample_jwtVerify _ _ _)).
  exists "good", "u1". repeat split; reflexivity.
Defined.

(** ** Coordinate checks *)

Lemma Rleb_true (a b : R) : Rleb a b = true ↔ (a <= b)%R.
Proof. unfold Rleb. destruct (Rle_dec a b); split; auto; discriminate. Qed.

Lemma route_isValidCoordinates_true (lat lon : R) :
  route_isValidCoordinates lat lon = true ↔
  (-90 <= lat <= 90)%R ∧ (-180 <= lon <= 180)%R.
Proof.
  unfold route_isValidCoordinates. rewrite !andb_true_iff, !Rleb_true. tauto.
Qed.

(** The library's check accepts exactly two numbers that are present and
    in range; on two numbers it agrees with the helper of route.ts. *)
Theorem isValidCoordinates_check_true (latitude longitude : option R) :
  (isValidCoordinates_check latitude longitude = true ↔
   ∃ lat lon, latitude = Some lat ∧ longitude = Some lon ∧
              isValidCoordinates lat lon) ∧
  (∀ lat lon, isValidCoordinates_check (Some lat) (Some lon) =
              route_isValidCoordinates lat lon).
Proof.
  split; [| reflexivity].
  unfold isValidCoordinates_check, isValidCoordinates.
  destruct latitude as [lat |], longitude as [lon |].
  - rewrite !andb_true_iff, !Rleb_true. split.
    + intros H. exists lat, lon. tauto.
    + intros (? & ? & [= <-] & [= <-] & H). tauto.
  - split; [discriminate | now intros (? & ? & _ & [=] & _)].
  - split; [discriminate | now intros (? & ? & [=] & _)].
  - split; [discriminate | now intros (? & ? & [=] & _)].
Qed.

(** ** [POST /api/locations] *)

(** A location is created exactly when the caller is authenticated, the
    body names a device and carries both coordinates, the coordinates are in
    range, the device exists, and the caller is an administrator or owns the
    device; the row written then carries the coordinates of the body and the
    ids of that device. *)
Theorem POST_created
    (authResult : AuthResult) (body : Body)
    (findDevice : string → option Device)
    (findLatest : string → option PrevLocation) (timeElapsed : R) :
  let response := POST authResult body findDevice findLatest timeElapsed in
  let guards user deviceId latitude longitude device :=
    authResult = AuthSuccess user ∧
    body_deviceId body = Some deviceId ∧ deviceId ≠ "" ∧
    body_latitude body = Some latitude ∧
    body_longitude body = Some longitude ∧
    isValidCoordinates latitude longitude ∧
    findDevice deviceId = Some device ∧
    (role user = ADMIN ∨ dev_userId device = id user) in
  ((∃ row, response = Created row) ↔
   ∃ user deviceId latitude longitude device,
     guards user deviceId latitude longitude device) ∧
  (∀ row user deviceId latitude longitude device,
     response = Created row →
     guards user deviceId latitude longitude device →
     row_device row = dev_id device ∧
     row_deviceId row = dev_deviceId device ∧
     row_latitude row = latitude ∧ row_longitude row = longitude).
Proof.
  intros response guards. subst response guards. cbv beta. unfold POST.
  destruct authResult as [user | error statusCode].
  2: { split.
       - split; [now intros [row [=]] |].
         now intros (? & ? & ? & ? & ? & [=] & _).
       - now intros ? ? ? ? ? ? [=]. }
  destruct (body_deviceId body) as [deviceId |].
  2: { split.
       - split; [now intros [row [=]] |].
         now intros (? & ? & ? & ? & ? & _ & [=] & _).
       - now intros ? ? ? ? ? ? [=]. }
  destruct (body_latitude body) as [latitude |].
  2: { split.
       - split; [now intros [row [=]] |].
         now intros (? & ? & ? & ? & ? & _ & _ & _ & [=] & _).
       - now intros ? ? ? ? ? ? [=]. }
  destruct (body_longitude body) as [longitude |].
  2: { split.
       - split; [now intros [row [=]] |].
         now intros (? & ? & ? & ? & ? & _ & _ & _ & _ & [=] & _).
       - now intros ? ? ? ? ? ? [=]. }
  destruct (decide (deviceId = "")) as [He | Hne].
  { split.
    - split; [now intros [row [=]] |].
      intros (? & ? & ? & ? & ? & _ & [= <-] & Hd & _). contradiction.
    - now intros ? ? ? ? ? ? [=]. }
  destruct (route_isValidCoordinates latitude longitude) eqn:Hv; cbn [negb].
  2: { split.
       - split; [now intros [row [=]] |].
         intros (? & ? & lat & lon & ? & _ & _ & _ & [= <-] & [= <-] & Hr & _).
         unfold isValidCoordinates in Hr.
         assert (route_isValidCoordinates latitude longitude = true)
           by (apply route_isValidCoordinates_true; tauto).
         congruence.
       - now intros ? ? ? ? ? ? [=]. }
  apply route_isValidCoordinates_true in Hv.
  destruct (findDevice deviceId) as [device |] eqn:Hdev.
  2: { split.
       - split; [now intros [row [=]] |].
         intros (? & ? & ? & ? & ? & _ & [= <-] & _ & _ & _ & _ & Hf & _).
         congruence.
       - now intros ? ? ? ? ? ? [=]. }
  destruct (is_admin (role user)) eqn:Hadm; cbn [negb andb].
  - split.
    + split; [| intros _; eexists; reflexivity].
      intros _. exists user, deviceId, latitude, longitude, device.
      unfold isValidCoordinates.
      repeat split; try tauto. left. now destruct (role user).
    + intros row u did lat lon dev [= <-]
        ([= <-] & [= <-] & _ & [= <-] & [= <-] & _ & Hf & _).
      rewrite Hdev in Hf. injection Hf as <-. repeat split.
  - case_bool_decide as Hown; cbn [negb].
    + split.
      * split; [| intros _; eexists; reflexivity].
        intros _. exists user, deviceId, latitude, longitude, device.
        unfold isValidCoordinates. repeat split; try tauto; now right.
      * intros row u did lat lon dev [= <-]
          ([= <-] & [= <-] & _ & [= <-] & [= <-] & _ & Hf & _).
        rewrite Hdev in Hf. injection Hf as <-. repeat split.
    + split.
      * split; [now intros [row [=]] |].
        intros (u & did & ? & ? & dev & [= <-] & [= <-] & _ & _ & _ & _ &
                Hf & [Hr | Ho]).
        -- rewrite Hr in Hadm. discriminate.
        -- rewrite Hdev in Hf. injection Hf as <-. contradiction.
      * now intros ? ? ? ? ? ? [=].
Qed.

Lemma POST_created_witness :
  let user := {| id := "u1"; email := "alice@example.com"; name := None;
                 role := USER; isActive := true |} in
  let device := {| dev_id := "row1"; dev_deviceId := "d1";
                   dev_userId := "u1"; dev_isActive := true;
                   dev_latitude := None; dev_longitude := None;
                   dev_speedKmh := None; dev_speedMph := None;
                   dev_heading := None; dev_motionState := None;
                   dev_lastSeen := None |} in
  let body := {| body_deviceId := Some "d1"; body_latitude := Some 40%R;
                 body_longitude := Some (-74)%R; body_accuracy := None;
                 body_altitude := None; body_speedKmh := None;
                 body_heading := None |} in
  ∃ row, POST (AuthSuccess user) body (λ _, Some device) (λ _, None) 0
         = Created row.
Proof.
  intros user device body.
  apply (proj1 (POST_created (AuthSuccess user) body (λ _, Some device)
                  (λ _, None) 0)).
  exists user, "d1", 40%R, (-74)%R, device.
  unfold isValidCoordinates.
  repeat split; try reflexivity; try discriminate; try lra. now right.
Defined.

(** The route hands on every rejection of [authenticateRequest] with the
    status the middleware chose (so a deactivated account gets 403 whatever
    the body), and creates nothing. *)
Theorem POST_unauthenticated
    (jwtVerify : string → option string) (findUser : string → option AuthUser)
    (authorization : option string) (body : Body)
    (findDevice : string → option Device)
    (findLatest : string → option PrevLocation) (timeElapsed : R)
    (error : string) (statusCode : nat) :
  authenticateRequest jwtVerify findUser authorization =
    AuthFailure error statusCode →
  POST (authenticateRequest jwtVerify findUser authorization) body
    findDevice findLatest timeElapsed = ErrorResponse statusCode error.
Proof.
  intros H.
  destruct (authenticateRequest_rejections _ _ _ _ _ H) as [Hsc _].
  rewrite H. cbn [POST].
  destruct Hsc as [-> | [-> | ->]]; reflexivity.
Qed.

Lemma POST_unauthenticated_witness :
  let body := {| body_deviceId := Some "d1"; body_latitude := Some 40%R;
                 body_longitude := Some (-74)%R; body_accuracy := None;
                 body_altitude := None; body_speedKmh := None;
                 body_heading := None |} in
  POST (authenticateRequest sample_jwtVerify sample_findUser
          (Some "Bearer good")) body (λ _, None) (λ _, None) 0
  = ErrorResponse 403 "Account is deactivated".
Proof.
  intros body.
  apply (POST_unauthenticated sample_jwtVerify sample_findUser
           (Some "Bearer good") body (λ _, None) (λ _, None) 0%R).
  reflexivity.
Defined.

(** ** [POST /api/locations/batch] *)

Lemma same_identity_refl (d : Device) : same_identity d d.
Proof. now repeat split. Qed.

Lemma same_identity_trans (d1 d2 d3 : Device) :
  same_identity d1 d2 → same_identity d2 d3 → same_identity d1 d3.
Proof.
  unfold same_identity. intros (? & ? & ? & ?) (? & ? & ? & ?).
  repeat split; congruence.
Qed.

Lemma same_devices_refl (m : gmap string Device) : same_devices m m.
Proof. intros k. destruct (m !! k); [apply same_identity_refl | exact I]. Qed.

Lemma same_devices_trans (m1 m2 m3 : gmap string Device) :
  same_devices m1 m2 → same_devices m2 m3 → same_devices m1 m3.
Proof.
  intros H12 H23 k. specialize (H12 k). specialize (H23 k).
  destruct (m1 !! k), (m2 !! k), (m3 !! k); try tauto.
  eapply same_identity_trans; eassumption.
Qed.

Lemma same_devices_insert (m : gmap string Device) (k : string) (d d' : Device) :
  m !! k = Some d → same_identity d d' → same_devices m (<[k := d']> m).
Proof.
  intros Hk Hid k'. destruct (decide (k = k')) as [<- | Hne].
  - now rewrite Hk, lookup_insert_eq.
  - rewrite lookup_insert_ne by exact Hne.
    destruct (m !! k'); [apply same_identity_refl | exact I].
Qed.

Lemma accepted_same_devices
    (user : AuthUser) (m m' : gmap string Device) (u : Update)
    (deviceId : string) (latitude longitude : R) (d' : Device) :
  same_devices m m' → accepted user m' u deviceId latitude longitude d' →
  ∃ d, accepted user m u deviceId latitude longitude d ∧ same_identity d d'.
Proof.
  intros Hm (H1 & H2 & H3 & H4 & H5 & H6 & H7 & H8).
  specialize (Hm deviceId). rewrite H6 in Hm.
  destruct (m !! deviceId) as [d |] eqn:Hd; [| contradiction].
  exists d. split; [| exact Hm].
  destruct Hm as (_ & _ & Hu & Ha).
  unfold accepted. rewrite Hu, Ha. tauto.
Qed.

(** What one round of the loop does. *)
Lemma process_update_spec (user : AuthUser) (st : BatchState) (u : Update) :
  let st' := process_update user st u in
  (∃ deviceId latitude longitude d d' r,
      accepted user (devices st) u deviceId latitude longitude d ∧
      devices st' = <[deviceId := d']> (devices st) ∧
      results st' = (results st ++ [r])%list ∧
      errors st' = errors st ∧
      same_identity d d' ∧
      dev_latitude d' = Some latitude ∧ dev_longitude d' = Some longitude ∧
      dev_lastSeen d' = Some (upd_now u) ∧
      res_deviceId r = deviceId ∧ res_device r = d' ∧
      brow_device (res_location r) = dev_id d ∧
      brow_latitude (res_location r) = latitude ∧
      brow_longitude (res_location r) = longitude ∧
      brow_timestamp (res_location r) = upd_now u ∧
      let c := calculateLocationData (dev_latitude d) (dev_longitude d)
                 latitude longitude
                 (match dev_lastSeen d with
                  | Some lastSeen => Some (upd_now u - lastSeen)%R
                  | None => None
                  end) in
      brow_heading (res_location r) = bearing c ∧
      brow_speedKmh (res_location r) = positive_or_null (kmh (speed c)) ∧
      brow_motionState (res_location r) = motionState c)
  ∨
  ((∀ deviceId latitude longitude d,
       ¬ accepted user (devices st) u deviceId latitude longitude d) ∧
   ∃ e, st' = push_error e st).
Proof.
  intros st'. subst st'. unfold process_update.
  destruct (upd_deviceId u) as [deviceId |] eqn:Hid.
  2: { right. split; [| eauto]. intros ? ? ? ? (H & _). congruence. }
  destruct (upd_latitude u) as [latitude |] eqn:Hlat.
  2: { right. split; [| eauto]. intros ? ? ? ? (_ & _ & H & _). congruence. }
  destruct (upd_longitude u) as [longitude |] eqn:Hlon.
  2: { right. split; [| eauto].
       intros ? ? ? ? (_ & _ & _ & H & _). congruence. }
  destruct (decide (deviceId = "")) as [He | Hne].
  { right. split; [| eauto]. intros ? ? ? ? (H & H' & _). congruence. }
  destruct (isValidCoordinates_check (Some latitude) (Some longitude)) eqn:Hv;
    cbn [negb].
  2: { right. split; [| eauto].
       intros ? lat lon ? (_ & _ & H3 & H4 & H5 & _).
       assert (isValidCoordinates_check (Some latitude) (Some longitude) = true).
       { apply isValidCoordinates_check_true. exists lat, lon.
         repeat split; try congruence; apply H5. }
       congruence. }
  apply isValidCoordinates_check_true in Hv.
  destruct Hv as (lat & lon & [= <-] & [= <-] & Hv).
  destruct (devices st !! deviceId) as [d |] eqn:Hd.
  2: { right. split; [| eauto].
       intros ? ? ? ? (H & _ & _ & _ & _ & H6 & _). congruence. }
  case_bool_decide as Hown; cbn [negb andb].
  - destruct (dev_isActive d) eqn:Hact; cbn [negb].
    + left. eexists deviceId, latitude, longitude, d, _, _.
      split.
      { exact (conj Hid (conj Hne (conj Hlat (conj Hlon (conj Hv
                (conj Hd (conj (or_introl Hown) Hact))))))). }
      repeat (split;
        [first [reflexivity
               | exact (conj eq_refl (conj eq_refl (conj eq_refl Hact)))] |]).
      reflexivity.
    + right. split; [| eauto].
      intros ? ? ? ? (H & _ & _ & _ & _ & H6 & _ & H8). congruence.
  - destruct (is_admin (role user)) eqn:Hadm; cbn [negb].
    + destruct (dev_isActive d) eqn:Hact; cbn [negb].
      * left. eexists deviceId, latitude, longitude, d, _, _.
        assert (Hrole : role user = ADMIN) by now destruct (role user).
        split.
        { exact (conj Hid (conj Hne (conj Hlat (conj Hlon (conj Hv
                  (conj Hd (conj (or_intror Hrole) Hact))))))). }
        repeat (split;
          [first [reflexivity
                 | exact (conj eq_refl (conj eq_refl (conj eq_refl Hact)))]
          |]).
        reflexivity.
      * right. split; [| eauto].
        intros ? ? ? ? (H & _ & _ & _ & _ & H6 & _ & H8). congruence.
    + right. split; [| eauto].
      intros ? ? ? d0 (H & _ & _ & _ & _ & H6 & [Ho | Hr] & _).
      * congruence.
      * rewrite Hr in Hadm. discriminate.
Qed.

Lemma same_identity_sym (d d' : Device) : same_identity d d' → same_identity d' d.
Proof. unfold same_identity. intros (? & ? & ? & ?). repeat split; congruence. Qed.

Lemma same_devices_sym (m m' : gmap string Device) :
  same_devices m m' → same_devices m' m.
Proof.
  intros H k. specialize (H k).
  destruct (m !! k), (m' !! k); try tauto. now apply same_identity_sym.
Qed.

Section Batch.

Variable user : AuthUser.

Notation loop := (LocationsApi.loop user).

Lemma loop_app (us us' : list Update) (st : BatchState) :
  loop (us ++ us') st = loop us' (loop us st).
Proof. unfold loop. apply fold_left_app. Qed.


Lemma step_same_devices (st : BatchState) (u : Update) :
  same_devices (devices st) (devices (process_update user st u)).
Proof.
  destruct (process_update_spec user st u)
    as [(k & ? & ? & d & d' & ? & Ha & Hd & _ & _ & Hid & _) | [_ [e He]]].
  - rewrite Hd. apply same_devices_insert with (d := d); [apply Ha | exact Hid].
  - rewrite He. apply same_devices_refl.
Qed.


Lemma loop_same_devices (updates : list Update) (st : BatchState) :
  same_devices (devices st) (devices (loop updates st)).
Proof.
  revert st. induction updates as [| u us IH]; intros st; cbn;
    [apply same_devices_refl |].
  eapply same_devices_trans; [apply step_same_devices | apply IH].
Qed.






End Batch.



(** A batch neither adds nor removes a device, and leaves the ids, the
    owner and the activation of every device as they were. *)
Theorem batch_preserves_devices
    (user : AuthUser) (updates : list Update) (db : gmap string Device) :
  same_devices db (devices (process_updates user db updates)).
Proof.
  unfold process_updates.
  apply (loop_same_devices user updates
           {| devices := db; results := []; errors := [] |}).
Qed.




(** Within a batch each update is measured from the one before: when two
    accepted updates for one device follow each other, the row of the second
    holds the bearing, speed and motion state computed from the position and
    time of the first. *)
Theorem batch_measures_from_previous
    (user : AuthUser) (db : gmap string Device)
    (before : list Update) (u1 u2 : Update)
    (deviceId : string) (lat1 lon1 lat2 lon2 : R) (d : Device) :
  accepted user db u1 deviceId lat1 lon1 d →
  accepted user db u2 deviceId lat2 lon2 d →
  ∃ rs r1 r2,
    results (process_updates user db (before ++ [u1; u2]))
      = (rs ++ [r1; r2])%list ∧
    let c := calculateLocationData (Some lat1) (Some lon1) lat2 lon2
               (Some (upd_now u2 - upd_now u1)%R) in
    brow_heading (res_location r2) = bearing c ∧
    brow_speedKmh (res_location r2) = positive_or_null (kmh (speed c)) ∧
    brow_motionState (res_location r2) = motionState c.
Proof.
  intros Ha1 Ha2. unfold process_updates.
  set (st0 := {| devices := db; results := []; errors := [] |}).
  rewrite loop_app. set (st := loop user before st0).
  change (loop user [u1; u2] st)
    with (process_update user (process_update user st u1) u2).
  assert (Hsame : same_devices db (devices st))
    by apply (loop_same_devices user before st0).
  destruct (accepted_same_devices user _ _ u1 deviceId lat1 lon1 d
              (same_devices_sym _ _ Hsame) Ha1) as (d1 & Hb1 & _).
  destruct (process_update_spec user st u1)
    as [(k & la & lo & e1 & e1' & r1 & Hc1 & Hd1 & Hr1 & _ & _ & Hlat1 &
         Hlon1 & Hseen1 & _) | [Hno _]].
  2: now destruct (Hno _ _ _ _ Hb1).
  destruct Hb1 as (Hk1 & _ & Hl1 & Hl2 & _).
  destruct Hc1 as (Hk1' & _ & Hl1' & Hl2' & _).
  assert (k = deviceId) by congruence. subst k.
  assert (la = lat1) by congruence. subst la.
  assert (lo = lon1) by congruence. subst lo.
  set (st1 := process_update user st u1) in *.
  assert (Hsame1 : same_devices db (devices st1)).
  { eapply same_devices_trans; [exact Hsame | apply step_same_devices]. }
  destruct (accepted_same_devices user _ _ u2 deviceId lat2 lon2 d
              (same_devices_sym _ _ Hsame1) Ha2) as (d2 & Hb2 & _).
  destruct (process_update_spec user st1 u2)
    as [(k & la & lo & e2 & e2' & r2 & Hc2 & _ & Hr2 & _ & _ & _ & _ & _ & _ &
         _ & _ & _ & _ & _ & Hcalc) | [Hno _]].
  2: now destruct (Hno _ _ _ _ Hb2).
  destruct Hb2 as (Hk2 & _ & Hl3 & Hl4 & _).
  destruct Hc2 as (Hk2' & _ & Hl3' & Hl4' & _ & Hm2 & _).
  assert (k = deviceId) by congruence. subst k.
  assert (la = lat2) by congruence. subst la.
  assert (lo = lon2) by congruence. subst lo.
  rewrite Hd1, lookup_insert_eq in Hm2. injection Hm2 as <-.
  rewrite Hlat1, Hlon1, Hseen1 in Hcalc.
  exists (results st), r1, r2. split; [| exact Hcalc].
  rewrite Hr2, Hr1, <- app_assoc. reflexivity.
Qed.

Lemma batch_chain_example_accepted :
  let user := {| id := "u1"; email := "alice@example.com"; name := None;
                 role := ADMIN; isActive := true |} in
  let device := {| dev_id := "row1"; dev_deviceId := "d1";
                   dev_userId := "u2"; dev_isActive := true;
                   dev_latitude := None; dev_longitude := None;
                   dev_speedKmh := None; dev_speedMph := None;
                   dev_heading := None; dev_motionState := None;
                   dev_lastSeen := None |} in
  ∀ lat now,
    (-90 <= lat <= 90)%R →
    accepted user {[ "d1" := device ]}
      {| upd_deviceId := Some "d1"; upd_latitude := Some lat;
         upd_longitude := Some (-74)%R; upd_accuracy := None;
         upd_altitude := None; upd_now := now |}
      "d1" lat (-74)%R device.
Proof.
  intros user device lat now Hlat. unfold accepted, isValidCoordinates.
  repeat split; try reflexivity; try discriminate; try lra. now right.
Qed.


Lemma batch_measures_from_previous_witness :
  let user := {| id := "u1"; email := "alice@example.com"; name := None;
                 role := ADMIN; isActive := true |} in
  let device := {| dev_id := "row1"; dev_deviceId := "d1";
                   dev_userId := "u2"; dev_isActive := true;
                   dev_latitude := None; dev_longitude := None;
                   dev_speedKmh := None; dev_speedMph := None;
                   dev_heading := None; dev_motionState := None;
                   dev_lastSeen := None |} in
  let u (lat now : R) :=
    {| upd_deviceId := Some "d1"; upd_latitude := Some lat;
       upd_longitude := Some (-74)%R; upd_accuracy := None;
       upd_altitude := None; upd_now := now |} in
  ∃ rs r1 r2,
    results (process_updates user {[ "d1" := device ]}
               ([] ++ [u 40 0; u 41 1000]))%R = (rs ++ [r1; r2])%list ∧
    brow_heading (res_location r2) =
      bearing (calculateLocationData (Some 40) (Some (-74)) 41 (-74)
                 (Some (1000 - 0)))%R.
Proof.
  intros user device u.
  destruct (batch_measures_from_previous user {[ "d1" := device ]} []
              (u 40 0)%R (u 41 1000)%R "d1" 40%R (-74)%R 41%R (-74)%R device)
    as (rs & r1 & r2 & Hres & Hhead & _).
  - apply (batch_chain_example_accepted 40%R 0%R). lra.
  - apply (batch_chain_example_accepted 41%R 1000%R). lra.
  - exists rs, r1, r2. split; [exact Hres | exact Hhead].
Defined.

End ApiFacts.

(* ===================================================================== *)
(** * Further properties of the WebSocket service and of the tracker page *)
(* ===================================================================== *)

Module ServiceMore.

Import Service ServiceFacts.
Local Open Scope string_scope.
#[local] Set Warnings "-clear-no-such-hyp".

(** ** Removing a socket from a set *)

Lemma without_absent (id : string) (s : gset string) :
  id ∉ s → s ≠ ∅ → without id s = Some s.
Proof.
  intros Hid Hne. unfold without.
  assert (Hs : s ∖ {[id]} = s) by (clear Hne; set_solver).
  rewrite Hs. case_decide as Hsz; [| reflexivity].
  apply size_empty_inv, leibniz_equiv in Hsz. contradiction.
Qed.

Lemma without_added (id : string) (s : gset string) :
  id ∉ s → without id ({[id]} ∪ s) = if decide (s = ∅) then None else Some s.
Proof.
  intros Hid. unfold without.
  assert (Hs : ({[id]} ∪ s) ∖ {[id]} = s) by set_solver.
  rewrite Hs. case_decide as Hsz; case_decide as He; try reflexivity.
  - apply size_empty_inv, leibniz_equiv in Hsz. contradiction.
  - subst s. now rewrite size_empty in Hsz.
Qed.

Lemma lookup_add_member_eq (key id : string) (m : gmap string (gset string)) :
  add_member key id m !! key = Some ({[id]} ∪ members key m).
Proof. unfold add_member. apply lookup_insert_eq. Qed.

Lemma remove_add_member (key id : string) (m : gmap string (gset string)) :
  id ∉ members key m → m !! key ≠ Some ∅ →
  remove_member key id (add_member key id m) = m.
Proof.
  intros Hid Hne. apply map_eq. intros k.
  rewrite lookup_remove_member.
  destruct (decide (key = k)) as [<- | Hk].
  - rewrite lookup_add_member_eq. cbn.
    rewrite without_added by exact Hid. unfold members in *.
    destruct (m !! key) as [s |] eqn:Hs; cbn in *.
    + rewrite decide_False; [reflexivity | congruence].
    + now rewrite decide_True.
  - rewrite lookup_add_member. now rewrite decide_False by exact Hk.
Qed.

Lemma add_member_twice (key id : string) (m : gmap string (gset string)) :
  add_member key id (add_member key id m) = add_member key id m.
Proof.
  apply map_eq. intros k. rewrite !lookup_add_member.
  destruct (decide (key = k)) as [<- | Hk]; [| reflexivity].
  f_equal. unfold members. rewrite lookup_add_member_eq. cbn.
  set_solver.
Qed.

Lemma remove_member_twice (key id : string) (m : gmap string (gset string)) :
  remove_member key id (remove_member key id m) = remove_member key id m.
Proof.
  apply map_eq. intros k. rewrite (lookup_remove_member key id k).
  destruct (decide (key = k)) as [<- | Hk]; [| reflexivity].
  rewrite lookup_remove_member, decide_True by reflexivity.
  destruct (m !! key) as [s |]; [| reflexivity]. cbn.
  destruct (without id s) as [s' |] eqn:Hw; [| reflexivity]. cbn.
  apply without_Some in Hw. destruct Hw as [-> Hne].
  apply without_absent; [set_solver | exact Hne].
Qed.

Lemma remove_member_absent (key id : string) (m : gmap string (gset string)) :
  id ∉ members key m → m !! key ≠ Some ∅ → remove_member key id m = m.
Proof.
  intros Hid Hne. unfold remove_member, members in *.
  destruct (m !! key) as [s |] eqn:Hs; [| reflexivity]. cbn in Hid.
  rewrite without_absent; [now apply insert_id | exact Hid | congruence].
Qed.

(** ** Registering and unregistering a device *)

(** Registering for a device and unregistering again restores the state,
    for an authenticated socket that was not registered for the device
    (neither table holding an empty set for it). *)
Theorem register_unregister_round_trip
    (id deviceId : string) (user : User) (st : State) :
  socketToUser st !! id = Some user →
  id ∉ membersOf deviceId st →
  id ∉ members (device_room deviceId) (rooms st) →
  connectedDevices st !! deviceId ≠ Some ∅ →
  rooms st !! device_room deviceId ≠ Some ∅ →
  (on_device_unregister id deviceId
     (on_device_register id deviceId st).1).1 = st.
Proof.
  intros Hu Hid Hroom Hne Hrne.
  unfold on_device_register. rewrite Hu. cbn [fst].
  unfold on_device_unregister. cbn [socketToUser]. rewrite Hu.
  cbn [fst connectedDevices rooms socketToUser connected closed].
  rewrite !remove_add_member by assumption. now destruct st.
Qed.

Lemma register_unregister_round_trip_witness :
  (on_device_unregister "C" "d1"
     (on_device_register "C" "d1" fan_out_state).1).1 = fan_out_state.
Proof.
  apply (register_unregister_round_trip "C" "d1" alice fan_out_state).
  - vm_compute; reflexivity.
  - refine (bool_decide_unpack _ _). vm_compute. exact I.
  - refine (bool_decide_unpack _ _). vm_compute. exact I.
  - refine (bool_decide_unpack _ _). vm_compute. exact I.
  - refine (bool_decide_unpack _ _). vm_compute. exact I.
Defined.

(** Registering twice is registering once and unregistering twice is
    unregistering once, in every state; unregistering a device the socket is
    not registered for changes neither table. *)
Theorem register_unregister_idempotent (id deviceId : string) (st : State) :
  (on_device_register id deviceId (on_device_register id deviceId st).1).1
    = (on_device_register id deviceId st).1 ∧
  (on_device_unregister id deviceId (on_device_unregister id deviceId st).1).1
    = (on_device_unregister id deviceId st).1 ∧
  (id ∉ membersOf deviceId st →
   id ∉ members (device_room deviceId) (rooms st) →
   connectedDevices st !! deviceId ≠ Some ∅ →
   rooms st !! device_room deviceId ≠ Some ∅ →
   (on_device_unregister id deviceId st).1 = st).
Proof.
  unfold on_device_register, on_device_unregister.
  destruct (socketToUser st !! id) as [user |] eqn:Hu; cbn [fst].
  - cbn [socketToUser]. rewrite Hu.
    cbn [fst connectedDevices rooms socketToUser connected closed].
    rewrite !add_member_twice, !remove_member_twice.
    split; [reflexivity |]. split; [reflexivity |].
    intros H1 H2 H3 H4. rewrite !remove_member_absent by assumption.
    now destruct st.
  - rewrite Hu. cbn [fst]. repeat split; reflexivity.
Qed.

Lemma register_unregister_idempotent_witness :
  (on_device_unregister "C" "d1" fan_out_state).1 = fan_out_state.
Proof.
  apply (proj2 (proj2 (register_unregister_idempotent "C" "d1" fan_out_state))).
  - refine (bool_decide_unpack _ _). vm_compute. exact I.
  - refine (bool_decide_unpack _ _). vm_compute. exact I.
  - refine (bool_decide_unpack _ _). vm_compute. exact I.
  - refine (bool_decide_unpack _ _). vm_compute. exact I.
Defined.

(** ** Disconnecting *)

Lemma members_remove_everywhere
    (key id id' : string) (m : gmap string (gset string)) :
  id' ∈ members key (remove_everywhere id m) ↔
  id' ≠ id ∧ id' ∈ members key m.
Proof.
  rewrite !elem_of_members. setoid_rewrite lookup_remove_everywhere. split.
  - intros (s' & Hs' & Hin).
    destruct (m !! key) as [s |]; [| discriminate]. cbn in Hs'.
    apply without_Some in Hs'. destruct Hs' as [-> _].
    split; [set_solver | exists s; split; [reflexivity | set_solver]].
  - intros (Hne & s & Hs & Hin). rewrite Hs. cbn. unfold without.
    case_decide as Hsz.
    + apply size_empty_inv in Hsz. set_solver.
    + eexists. split; [reflexivity | set_solver].
Qed.

Lemma on_disconnect_frame (id : string) (st : State) :
  let st' := (on_disconnect id st).1 in
  socketToUser st' !! id = None ∧
  (∀ d, id ∉ membersOf d st') ∧
  (∀ room, id ∉ members room (rooms st')) ∧
  (∀ id', id' ≠ id →
     socketToUser st' !! id' = socketToUser st !! id' ∧
     (∀ d, id' ∈ membersOf d st' ↔ id' ∈ membersOf d st) ∧
     (∀ room, id' ∈ members room (rooms st') ↔ id' ∈ members room (rooms st))).
Proof.
  cbn. unfold membersOf. cbn.
  split; [apply lookup_delete_eq |].
  split; [intros d [H _]%members_remove_everywhere; now apply H |].
  split; [intros d [H _]%members_remove_everywhere; now apply H |].
  intros id' Hne. split; [now apply lookup_delete_ne |].
  split; intros k; rewrite members_remove_everywhere; tauto.
Qed.

(** The disconnect handler removes the socket's identity and takes the
    socket out of every device set and every room; the identity and the
    memberships of every other socket are as before. *)
Theorem disconnect_isolated (id : string) (st : State) :
  let st' := (on_disconnect id st).1 in
  socketToUser st' !! id = None ∧
  (∀ d, id ∉ membersOf d st') ∧
  (∀ room, id ∉ members room (rooms st')) ∧
  (∀ id', id' ≠ id →
     socketToUser st' !! id' = socketToUser st !! id' ∧
     (∀ d, id' ∈ membersOf d st' ↔ id' ∈ membersOf d st) ∧
     (∀ room, id' ∈ members room (rooms st') ↔ id' ∈ members room (rooms st))).
Proof. exact (on_disconnect_frame id st). Qed.

Lemma disconnect_isolated_witness :
  "B" ∈ membersOf "d1" (on_disconnect "A" fan_out_state).1.
Proof.
  destruct (disconnect_isolated "A" fan_out_state) as (_ & _ & _ & H).
  assert (Hne : "B" ≠ "A") by discriminate.
  destruct (H "B" Hne) as (_ & Hd & _).
  refine (proj2 (Hd "d1") _).
  refine (bool_decide_unpack _ _). vm_compute. exact I.
Defined.

(** ** Who receives what *)

(** Whatever event is handled, a message sent to a socket other than the
    one the event came from is a [location:update] broadcast: callbacks,
    errors and the [authenticated] event only go to the socket concerned. *)
Theorem replies_are_local
    (verifyToken : string → option User) (ev : Event) (st : State)
    (id : string) (m : Message) :
  (id, m) ∈ (step verifyToken ev st).2 →
  id = socket_of ev ∨ is_location_update m.
Proof.
  unfold step.
  destruct ev as [i | i token | i d | i d l now now' | i d | i];
    cbn [socket_of]; case_decide as Hdec; cbn [snd];
    try (now intros ?%elem_of_nil).
  - unfold on_authenticate. destruct (verifyToken token); cbn [snd].
    + intros [H | H%list_elem_of_singleton]%elem_of_cons; left; congruence.
    + intros H%list_elem_of_singleton. left. congruence.
  - unfold on_device_register. destruct (socketToUser st !! i); cbn [snd];
      intros H%list_elem_of_singleton; left; congruence.
  - unfold on_location_update. destruct (socketToUser st !! i); cbn [snd].
    + unfold io_to_emit. intros (x & [= _ ->] & _)%list_elem_of_fmap.
      right. exact I.
    + intros H%list_elem_of_singleton. left. congruence.
  - unfold on_device_unregister. destruct (socketToUser st !! i); cbn [snd];
      intros H%list_elem_of_singleton; left; congruence.
Qed.

Lemma replies_are_local_witness :
  "s1" = socket_of (Authenticate "s1" "bad") ∨
  is_location_update (ErrorEvent "Authentication failed").
Proof.
  apply (replies_are_local sample_verifyToken (Authenticate "s1" "bad")
           (on_connection "s1" initial).1 "s1"
           (ErrorEvent "Authentication failed")).
  vm_compute. apply list_elem_of_singleton. reflexivity.
Defined.

(** ** Only authenticated sockets are registered *)

Lemma members_remove_member_subseteq
    (key id k id' : string) (m : gmap string (gset string)) :
  id' ∈ members k (remove_member key id m) → id' ∈ members k m.
Proof.
  rewrite !elem_of_members. setoid_rewrite lookup_remove_member.
  intros (s' & Hs' & Hin). case_decide as Hk; [subst k | eauto].
  destruct (m !! key) as [s |]; [| discriminate]. cbn in Hs'.
  apply without_Some in Hs'. destruct Hs' as [-> _].
  exists s. split; [reflexivity | set_solver].
Qed.

Lemma members_authenticated_initial : members_authenticated initial.
Proof.
  split.
  - intros d id. unfold membersOf, members. cbn. rewrite lookup_empty. cbn.
    set_solver.
  - intros id. cbn. rewrite lookup_empty. now intros [? [=]].
Qed.

Section Authenticated.

Variable verifyToken : string → option User.

Lemma on_disconnect_authenticated (id : string) (st : State) :
  members_authenticated st → members_authenticated (on_disconnect id st).1.
Proof.
  intros [Hm Hc].
  destruct (on_disconnect_frame id st) as (Hnone & _ & _ & Hother).
  split.
  - intros d id' Hin.
    destruct (decide (id' = id)) as [-> | Hne].
    + unfold membersOf in Hin. cbn in Hin.
      apply members_remove_everywhere in Hin. now destruct Hin.
    + destruct (Hother id' Hne) as (Hs & Hd & _).
      rewrite Hs. apply (Hm d), Hd, Hin.
  - intros id' Hs.
    destruct (decide (id' = id)) as [-> | Hne].
    + rewrite Hnone in Hs. now destruct Hs.
    + destruct (Hother id' Hne) as (Hs' & _). rewrite Hs' in Hs.
      cbn. apply Hc in Hs. clear -Hs Hne. set_solver.
Qed.

Lemma step_authenticated (ev : Event) (st : State) :
  members_authenticated st →
  members_authenticated (step verifyToken ev st).1.
Proof.
  intros Hinv. unfold step.
  destruct ev as [i | i token | i d | i d l now now' | i d | i];
    cbn [socket_of]; case_decide as Hdec; try exact Hinv.
  - destruct Hinv as [Hm Hc]. split; [exact Hm |].
    intros id Hs. cbn. apply Hc in Hs. clear -Hs. set_solver.
  - unfold on_authenticate. destruct (verifyToken token) as [user |].
    + destruct Hinv as [Hm Hc]. split; cbn.
      * intros d id Hin. apply (Hm d) in Hin.
        destruct (decide (i = id)) as [-> | Hne];
          [rewrite lookup_insert_eq; eauto |
           now rewrite lookup_insert_ne by exact Hne].
      * intros id. destruct (decide (i = id)) as [-> | Hne];
          [intros _; exact Hdec |].
        rewrite lookup_insert_ne by exact Hne. apply Hc.
    + pose proof (on_disconnect_authenticated i st Hinv) as H.
      now destruct (on_disconnect i st).
  - unfold on_device_register.
    destruct (socketToUser st !! i) as [user |] eqn:Hu; [| exact Hinv].
    destruct Hinv as [Hm Hc]. split; [| exact Hc].
    intros d' id. unfold membersOf. cbn.
    rewrite elem_of_members. setoid_rewrite lookup_add_member.
    intros (s & Hs & Hin). case_decide as Hk.
    + injection Hs as <-. apply elem_of_union in Hin.
      destruct Hin as [->%elem_of_singleton | Hin]; [rewrite Hu; eauto |].
      apply (Hm d), Hin.
    + apply (Hm d'). apply elem_of_members. eauto.
  - now rewrite on_location_update_state.
  - unfold on_device_unregister.
    destruct (socketToUser st !! i) as [user |] eqn:Hu; [| exact Hinv].
    destruct Hinv as [Hm Hc]. split; [| exact Hc].
    intros d' id. unfold membersOf. cbn.
    intros Hin%members_remove_member_subseteq. apply (Hm d'), Hin.
  - now apply on_disconnect_authenticated.
Qed.

Lemma run_authenticated (evs : list Event) (st : State) :
  members_authenticated st →
  members_authenticated (run verifyToken evs st).1.
Proof.
  revert st. induction evs as [| ev evs IH]; intros st Hinv; [exact Hinv |].
  rewrite run_cons. now apply IH, step_authenticated.
Qed.

End Authenticated.

(** After any sequence of events, every socket registered for a device is
    authenticated and connected; and when no socket id is the name of a
    device room, every [location:update] broadcast goes only to
    authenticated, connected sockets. *)
Theorem broadcasts_reach_authenticated_sockets
    (verifyToken : string → option User) (evs : list Event) (ev : Event) :
  let st := (run verifyToken evs initial).1 in
  (∀ d id, id ∈ membersOf d st →
           is_Some (socketToUser st !! id) ∧ id ∈ connected st) ∧
  (Forall (λ e, plain_id (socket_of e)) evs →
   ∀ id m, (id, m) ∈ (step verifyToken ev st).2 → is_location_update m →
           is_Some (socketToUser st !! id) ∧ id ∈ connected st).
Proof.
  intros st.
  assert (Hinv : members_authenticated st)
    by apply run_authenticated, members_authenticated_initial.
  destruct Hinv as [Hm Hc].
  assert (Hboth : ∀ d id, id ∈ membersOf d st →
                          is_Some (socketToUser st !! id) ∧ id ∈ connected st).
  { intros d id Hin. split; [apply (Hm d), Hin | apply Hc, (Hm d), Hin]. }
  split; [exact Hboth |].
  intros Hplain id m Hin Hloc.
  assert (Hsync : rooms_sync st) by (apply run_sync; [exact Hplain | easy]).
  unfold step in Hin.
  destruct ev as [i | i token | i d | i d l now now' | i d | i];
    cbn [socket_of] in Hin; case_decide as Hdec; cbn [snd] in Hin;
    try (now apply elem_of_nil in Hin).
  - unfold on_authenticate in Hin. destruct (verifyToken token); cbn in Hin.
    + apply elem_of_cons in Hin.
      destruct Hin as [[= _ ->] | [= _ ->]%list_elem_of_singleton];
        destruct Hloc.
    + apply list_elem_of_singleton in Hin. injection Hin as _ ->.
      destruct Hloc.
  - unfold on_device_register in Hin.
    destruct (socketToUser st !! i); cbn in Hin;
      apply list_elem_of_singleton in Hin; injection Hin as _ ->;
      destruct Hloc.
  - unfold on_location_update in Hin.
    destruct (socketToUser st !! i); cbn [snd] in Hin.
    + unfold io_to_emit in Hin. apply list_elem_of_fmap in Hin.
      destruct Hin as (x & [= -> _] & Hx). apply elem_of_elements in Hx.
      apply (Hboth d). unfold membersOf, members in *. now rewrite <- Hsync.
    + apply list_elem_of_singleton in Hin. injection Hin as _ ->.
      destruct Hloc.
  - unfold on_device_unregister in Hin.
    destruct (socketToUser st !! i); cbn in Hin;
      apply list_elem_of_singleton in Hin; injection Hin as _ ->;
      destruct Hloc.
Qed.

Lemma fan_out_setup_plain :
  Forall (λ e, plain_id (socket_of e)) fan_out_setup.
Proof.
  unfold fan_out_setup.
  repeat constructor; intros d; unfold device_room; cbn; discriminate.
Qed.

Lemma broadcasts_reach_authenticated_sockets_witness :
  is_Some (socketToUser fan_out_state !! "B") ∧ "B" ∈ connected fan_out_state.
Proof.
  apply (proj1 (broadcasts_reach_authenticated_sockets sample_verifyToken
                  fan_out_setup (Disconnect "A")) "d1" "B").
  refine (bool_decide_unpack _ _). vm_compute. exact I.
Defined.

Lemma publish_recipients_membersOf_witness :
  let fix_ := {| latitude := 40; longitude := -74; speedKmh := None;
                 heading := None; motionState := None; timestamp := None |} in
  recipients (on_location_update "C" "d1" fix_ "t1" "t2" fan_out_state).2 =
    elements (membersOf "d1" fan_out_state).
Proof.
  intros fix_.
  apply (publish_recipients_membersOf sample_verifyToken fan_out_setup
           "C" "d1" fix_ "t1" "t2" alice fan_out_setup_plain).
  vm_compute; reflexivity.
Defined.

(** ** The tracker page *)

(** The page's classifier agrees with the library's on every speed that
    is not NaN; NaN is DRIVING for the page and UNKNOWN for the library. *)
Theorem track_page_motion_state (speedKmh : option Calculator.number) :
  (speedKmh ≠ Some Calculator.NaN →
   TrackPage.determineMotionState speedKmh =
   Calculator.determineMotionState speedKmh) ∧
  TrackPage.determineMotionState (Some Calculator.NaN) = "DRIVING" ∧
  Calculator.determineMotionState (Some Calculator.NaN) = "UNKNOWN".
Proof.
  split; [| split; reflexivity].
  intros Hne. destruct speedKmh as [[| neg | r] |]; try reflexivity.
  now destruct Hne.
Qed.

Lemma track_page_motion_state_witness :
  TrackPage.determineMotionState (Some (Calculator.Num 5)) =
  Calculator.determineMotionState (Some (Calculator.Num 5)).
Proof.
  apply (proj1 (track_page_motion_state (Some (Calculator.Num 5)))).
  discriminate.
Defined.

End ServiceMore.
